(** * quick_verify.py: parallel pg_dump-to-/dev/null integrity check

    A shallow embedding of [quick_verify.py].  The supervisor ([main]) and the
    worker processes ([workerProcess]) are sequential Python programs that
    share one [multiprocessing.Queue]; the run is modelled as a transition
    system whose actions are "the supervisor executes its next statement",
    "worker [i] executes its next statement", "worker [i] is killed from
    outside" and "the feeder thread of the queue writes one item to the
    pipe", interleaved by an arbitrary schedule.  Everything outside the
    script (file system, catalog queries, the shell running pg_dump) is an
    environment record of oracles. *)

From stdpp Require Import base decidable list sets strings pretty.
From Stdlib Require Import ZArith Lia.

Local Open Scope Z_scope.

(** ** The pieces of the Python library the script relies on *)

Module Py.

(** The double-quote character, written by code point. *)
Definition dquote : string := String (Ascii.ascii_of_nat 34) EmptyString.

(** Truth value of a [str]: only the empty string is false. *)
Definition truthy (s : string) : bool :=
  match s with EmptyString => false | String _ _ => true end.

(** [s.startswith(p)] *)
Fixpoint startswith (p s : string) : bool :=
  match p, s with
  | EmptyString, _ => true
  | String _ _, EmptyString => false
  | String a p', String b s' => if decide (a = b) then startswith p' s' else false
  end.

(** [s.endswith(c)] for a one-character [c]. *)
Fixpoint endswith_char (c : Ascii.ascii) (s : string) : bool :=
  match s with
  | EmptyString => false
  | String a EmptyString => bool_decide (a = c)
  | String _ s' => endswith_char c s'
  end.

Definition sep : Ascii.ascii := Ascii.ascii_of_nat 47.

(** [os.path.join(a, b)] of posixpath, for two components. *)
Definition path_join (a b : string) : string :=
  if startswith (String sep EmptyString) b then b
  else if negb (truthy a) || endswith_char sep a then a +:+ b
  else a +:+ String sep b.

(** [s.find(sub)]: lowest index at which [sub] occurs in [s], or [-1]. *)
Fixpoint find_from (i : Z) (sub s : string) : Z :=
  if startswith sub s then i
  else match s with
       | EmptyString => -1
       | String _ s' => find_from (i + 1) sub s'
       end.

Definition find (s sub : string) : Z := find_from 0 sub s.

(** Whitespace removed by [str.strip()]: space, \t, \n, \v, \f, \r. *)
Definition isspace (c : Ascii.ascii) : bool :=
  let n := Ascii.nat_of_ascii c in
  (Nat.eqb n 32 || (Nat.leb 9 n && Nat.leb n 13))%bool.

Fixpoint lstrip (s : string) : string :=
  match s with
  | EmptyString => EmptyString
  | String c s' => if isspace c then lstrip s' else s
  end.

(** [rstrip] scans from the right: a character is dropped when it is
    whitespace and everything after it has been dropped. *)
Fixpoint rstrip (s : string) : string :=
  match s with
  | EmptyString => EmptyString
  | String c s' =>
      match rstrip s' with
      | EmptyString => if isspace c then EmptyString else String c EmptyString
      | r => String c r
      end
  end.

Definition strip (s : string) : string := rstrip (lstrip s).

(** [str(n)] for an [int]. *)
Definition str_of_int (n : Z) : string := pretty n.

(** [x in l] for a list of strings. *)
Definition contains (x : string) (l : list string) : bool :=
  bool_decide (x ∈ l).

End Py.

(** ** Command line and environment *)

(** The [argparse] namespace.  [username] defaults to [os.getenv('USER')],
    which is [None] when the variable is unset; [dbname] is [None] unless
    [-d] is given. *)
Record Args := {
  bindir : string;
  host : string;
  port : Z;
  username : option string;
  jobs : Z;
  dbname : option string;
  quiet : bool;
  unknown_args : list string
}.

(** What the run observes of the outside world.  A catalog query either
    raises (the message of the exception) or returns its rows in order; the
    shell maps a command line to the exit code of the process and the bytes
    it wrote to stdout and stderr. *)
Record Env := {
  path_exists : string → bool;
  list_databases : string + list string;
  list_tables : string → string + list string;
  shell : string → Z * string
}.

(** ** Logging *)

Inductive level := INFO | WARNING | ERROR.

Inductive pyval :=
| VStr (s : string)
| VInt (n : Z)
| VStrs (l : list string)
| VNamespace (a : Args).

(** One call of [logging.info/warning/error]: level, format, arguments. *)
Record logrec := { lvl : level; fmt : string; fargs : list pyval }.

Definition info (f : string) (a : list pyval) : logrec := {| lvl := INFO; fmt := f; fargs := a |}.
Definition warning (f : string) (a : list pyval) : logrec := {| lvl := WARNING; fmt := f; fargs := a |}.
Definition error (f : string) (a : list pyval) : logrec := {| lvl := ERROR; fmt := f; fargs := a |}.

Definition level_num (l : level) : Z :=
  match l with INFO => 20 | WARNING => 30 | ERROR => 40 end.

(** [logging.basicConfig(level=(logging.ERROR if args.quiet else logging.INFO))] *)
Definition threshold (a : Args) : level := if quiet a then ERROR else INFO.

Definition emitted (a : Args) (l : list logrec) : list logrec :=
  filter (λ r, level_num (threshold a) ≤ level_num (lvl r)) l.

(** ** Building and running the pg_dump commands *)

Abbreviation job := (string * string)%type.

(** ["{user}".format(user=args.username)]: [None] prints as [None]. *)
Definition fmt_user (a : Args) : string :=
  match username a with Some u => u | None => "None" end.

Definition pg_dump_path (a : Args) : string := Py.path_join (bindir a) "pg_dump".
Definition pg_dumpall_path (a : Args) : string := Py.path_join (bindir a) "pg_dumpall".

(** The command of [workerProcess]. *)
Definition table_cmd (a : Args) (j : job) : string :=
  pg_dump_path a +:+ " -h " +:+ host a +:+ " -p " +:+ Py.str_of_int (port a)
  +:+ " -U " +:+ Py.dquote +:+ fmt_user a +:+ Py.dquote
  +:+ " -t " +:+ j.2 +:+ " " +:+ Py.dquote +:+ j.1 +:+ Py.dquote +:+ " >/dev/null".

(** The command of [verifySchema]. *)
Definition schema_cmd (a : Args) (db : string) : string :=
  pg_dump_path a +:+ " -h " +:+ host a +:+ " -p " +:+ Py.str_of_int (port a)
  +:+ " -U " +:+ Py.dquote +:+ fmt_user a +:+ Py.dquote
  +:+ " --schema-only " +:+ Py.dquote +:+ db +:+ Py.dquote +:+ " >/dev/null".

(** [shell_exec_with_output(commands)] with the default [ok_code=0]: the
    exit code, the stripped output, and the records it logs. *)
Definition shell_exec_with_output (e : Env) (commands : string)
  : Z * string * list logrec :=
  let exitcode := (shell e commands).1 in
  let output := Py.strip (shell e commands).2 in
  (exitcode, output,
   if bool_decide (exitcode ≠ 0)
   then [error "Error executing: %s" [VStr commands]; error "%s" [VStr output]]
   else []).


Definition missing_table : string := "No matching tables were found".

(** ** Processes and the shared queue *)

(** A worker process, by the statement of [workerProcess] it is at. *)
Inductive wstate :=
| WStarting              (* forked, first statement not yet run *)
| WWaiting               (* blocked in, or about to call, queue.get() *)
| WDumping (j : job)     (* holds (dbname, tbl); pg_dump is running *)
| WExited (code : Z).    (* the process is gone *)

(** [w.is_alive()] *)
Definition is_alive (w : wstate) : bool :=
  match w with WExited _ => false | _ => true end.

Fixpoint allWorkersAlive (workers : list wstate) : bool :=
  match workers with
  | [] => true
  | w :: ws => if negb (is_alive w) then false else allWorkersAlive ws
  end.

(** How the supervisor process ends. *)
Inductive ending :=
| Returned               (* main() returns *)
| Raised (msg : string)  (* uncaught Exception *)
| Exit (code : Z).       (* exit(code) *)

Definition exit_code (r : ending) : Z :=
  match r with Returned => 0 | Raised _ => 1 | Exit c => c end.

(** The supervisor, by the statement of [main] it is at. *)
Inductive pc :=
| PStart
| PFor (dbs : list string) (tables_added : Z)
| PAdd (db : string) (dbs : list string) (tables_added : Z)
| PPut (db : string) (todo : list string) (count : Z)
       (dbs : list string) (tables_added : Z)
| PDrain (i : Z)
| PAlive (i : Z)
| PSleep (i : Z)
| PDone (r : ending).

(** Ghost record of what happened, oldest first. *)
Inductive event :=
| EvSchema (db : string) (retcode : Z)
| EvPut (j : job)
| EvGet (wid : nat) (j : job)
| EvDump (wid : nat) (j : job) (retcode : Z).

(** The [multiprocessing.Queue] is a pipe and, in the process that puts, a
    buffer with a feeder thread: [put] appends to the buffer, the feeder
    thread writes the buffered items to the pipe one by one, [get] reads
    from the pipe, [empty()] polls the pipe only, and [qsize()] counts what
    was put and not yet taken. *)
Record state := {
  main : pc;
  workers : list wstate;
  buffer : list job;     (* put, not yet written to the pipe *)
  pipe : list job;       (* written to the pipe, not yet read *)
  log : list logrec;
  trace : list event
}.

(** The content of the queue: what was put and not yet taken, oldest
    first. *)
Definition queue (s : state) : list job := pipe s ++ buffer s.

Definition init : state :=
  {| main := PStart; workers := []; buffer := []; pipe := []; log := [];
     trace := [] |}.

(** The supervisor moves to [p], logging [l] and recording [ev]. *)
Definition goto (s : state) (p : pc) (l : list logrec) (ev : list event) : state :=
  {| main := p; workers := workers s; buffer := buffer s; pipe := pipe s;
     log := log s ++ l; trace := trace s ++ ev |}.

(** ** The supervisor: [main] *)

(** Lines 125-128: the [-d] restriction. *)
Definition select_dbs (a : Args) (dbs : list string) : string + list string :=
  match dbname a with
  | Some d =>
      if Py.truthy d then
        if negb (Py.contains d dbs) then inl ("DB not found: " +:+ d)
        else inr [d]
      else inr dbs
  | None => inr dbs
  end.

(** Lines 118-128: the exception raised before [launchWorkers], or the
    databases to process. *)
Definition startup (e : Env) (a : Args) : string + list string :=
  if negb (path_exists e (pg_dumpall_path a))
  then inl "Invalid BINDIR! Could not find pg_dumpall"
  else match list_databases e with
       | inl err => inl err
       | inr dbs => select_dbs a dbs
       end.

Definition startup_log (e : Env) (a : Args) : list logrec :=
  info "Args: %s, unknown_args: %s" [VNamespace a; VStrs (unknown_args a)] ::
  (if negb (path_exists e (pg_dumpall_path a)) then []
   else match list_databases e with
        | inl _ => []
        | inr dbs => [info "dbs found: %s" [VStrs dbs]]
        end).

(** [launchWorkers()]: [range(args.jobs)] is empty for [jobs <= 0]. *)
Definition launchWorkers (a : Args) (workers : list wstate) : list wstate :=
  workers ++ replicate (Z.to_nat (jobs a)) WStarting.

Definition main_step (e : Env) (a : Args) (s : state) : state :=
  match main s with
  | PStart =>
      match startup e a with
      | inl msg => goto s (PDone (Raised msg)) (startup_log e a) []
      | inr dbs =>
          {| main := PFor dbs 0;
             workers := launchWorkers a (workers s);
             buffer := buffer s; pipe := pipe s;
             log := log s ++ startup_log e a
                    ++ [info "Launching %s worker processes" [VInt (jobs a)]];
             trace := trace s |}
      end
  | PFor (db :: dbs) n =>
      (* verifySchema(db) *)
      let cmd := schema_cmd a db in
      let '(retcode, output, l) := shell_exec_with_output e cmd in
      let l' := [info "Dumping schema with pg_dump --schema-only for %s" [VStr db];
                 info "Executing %s" [VStr cmd]] ++ l in
      if bool_decide (retcode ≠ 0)
      then goto s (PDone (Raised ("Failed to verify schema for DB " +:+ db)))
                l' [EvSchema db retcode]
      else goto s (PAdd db dbs n) l' [EvSchema db retcode]
  | PFor [] n =>
      if bool_decide (n = 0)
      then goto s (PDone (Raised "No tables found to be dumped!")) [] []
      else goto s (PDrain 0)
                [info "Waiting for %s tables to be pg_dumped..." [VInt n]] []
  | PAdd db dbs n =>
      (* addTablesFromDB(db), up to the loop over the tables *)
      let l := [info "Processing DB %s" [VStr db]] in
      match list_tables e db with
      | inl err => goto s (PDone (Raised err)) l []
      | inr tables => goto s (PPut db tables (Z.of_nat (length tables)) dbs n) l []
      end
  | PPut db (t :: ts) c dbs n =>
      (* queue.put((dbname, t)) *)
      {| main := PPut db ts c dbs n; workers := workers s;
         buffer := buffer s ++ [(db, t)]; pipe := pipe s;
         log := log s; trace := trace s ++ [EvPut (db, t)] |}
  | PPut db [] c dbs n =>
      goto s (PFor dbs (n + c)) [info "Added %s tables to the queue" [VInt c]] []
  | PDrain i =>
      (* queue.empty() *)
      if bool_decide (pipe s = [])
      then goto s (PDone Returned) [info "Done. No errors encountered" []] []
      else goto s (PAlive i) [] []
  | PAlive i =>
      if negb (allWorkersAlive (workers s))
      then goto s (PDone (Exit 1))
                [error "Not all worker processes are alive. Exiting" []] []
      else goto s (PSleep i) [] []
  | PSleep i =>
      let i' := i + 5 in
      goto s (PDrain i')
           (if bool_decide (i' `mod` 60 = 0)
            then [info "%s tables in the queue..." [VInt (Z.of_nat (length (queue s)))]]
            else []) []
  | PDone _ => s
  end.

(** ** A worker: [workerProcess] *)

(** The body of the loop after [queue.get()] returned [j]: the records
    logged, and where the worker is afterwards. *)
Definition dump_table (e : Env) (a : Args) (j : job) : list logrec * wstate * Z :=
  let cmd := table_cmd a j in
  let '(retcode, output, l) := shell_exec_with_output e cmd in
  let l' := info "Executing %s" [VStr cmd] :: l in
  if bool_decide (retcode ≠ 0) then
    if bool_decide (0 ≤ Py.find output missing_table)
    then (l' ++ [warning "Table %s could not be found [%s]" [VStr j.2; VStr j.1]],
          WWaiting, retcode)
    else (l' ++ [error "Failed to dump contents of table %s [%s]" [VStr j.2; VStr j.1]],
          WExited 1, retcode)
  else (l', WWaiting, retcode).

Definition worker_step (e : Env) (a : Args) (i : nat) (s : state) : state :=
  match workers s !! i with
  | Some WStarting =>
      {| main := main s; workers := <[i := WWaiting]> (workers s);
         buffer := buffer s; pipe := pipe s;
         log := log s ++ [info "Starting worker process %s ..." [VInt (Z.of_nat i)]];
         trace := trace s |}
  | Some WWaiting =>
      (* queue.get() blocks while the pipe holds nothing *)
      match pipe s with
      | [] => s
      | j :: q =>
          {| main := main s; workers := <[i := WDumping j]> (workers s);
             buffer := buffer s; pipe := q;
             log := log s; trace := trace s ++ [EvGet i j] |}
      end
  | Some (WDumping j) =>
      let '(l, w, retcode) := dump_table e a j in
      {| main := main s; workers := <[i := w]> (workers s);
         buffer := buffer s; pipe := pipe s;
         log := log s ++ l; trace := trace s ++ [EvDump i j retcode] |}
  | Some (WExited _) | None => s
  end.

(** The records a worker has written when it is killed [n] records into the
    statements it is executing: a worker that holds a job is somewhere in
    lines 41-50, every other worker has written nothing since its last
    step. *)
Definition cut_log (e : Env) (a : Args) (w : wstate) (n : nat) : list logrec :=
  match w with
  | WDumping j => take n (dump_table e a j).1.1
  | _ => []
  end.

(** A live worker process is killed from outside (SIGKILL), [n] records
    into the statements it is executing. *)
Definition kill_step (e : Env) (a : Args) (i n : nat) (s : state) : state :=
  match workers s !! i with
  | Some w =>
      if is_alive w
      then {| main := main s; workers := <[i := WExited (-9)]> (workers s);
              buffer := buffer s; pipe := pipe s;
              log := log s ++ cut_log e a w n; trace := trace s |}
      else s
  | None => s
  end.

(** ** The feeder thread of the queue *)

(** The thread writes the oldest buffered item to the pipe. *)
Definition feed_step (s : state) : state :=
  match buffer s with
  | [] => s
  | j :: b =>
      {| main := main s; workers := workers s; buffer := b; pipe := pipe s ++ [j];
         log := log s; trace := trace s |}
  end.

(** ** Runs *)

Inductive action :=
| AMain
| AWorker (i : nat)
| AKill (i : nat) (n : nat)
| AFeed.

Definition is_done (s : state) : bool :=
  match main s with PDone _ => true | _ => false end.

(** One scheduled action.  Once the supervisor has ended its own steps do
    nothing; the workers, daemon processes that nobody joins, and the
    feeder thread go on until the exit handler of the supervisor process
    ends them, which is the end of the schedule. *)
Definition step (e : Env) (a : Args) (act : action) (s : state) : state :=
  match act with
  | AMain => main_step e a s
  | AWorker i => worker_step e a i s
  | AKill i n => kill_step e a i n s
  | AFeed => feed_step s
  end.

Definition exec (e : Env) (a : Args) (sched : list action) (s : state) : state :=
  foldl (λ s act, step e a act s) s sched.

Definition run (e : Env) (a : Args) (sched : list action) : state :=
  exec e a sched init.

(** The exit code of the run, once the supervisor has ended. *)
Definition run_exit_code (s : state) : option Z :=
  match main s with PDone r => Some (exit_code r) | _ => None end.

(** Projections of the ghost trace. *)
Definition puts (tr : list event) : list job :=
  omap (λ ev, match ev with EvPut j => Some j | _ => None end) tr.
Definition gets (tr : list event) : list (nat * job) :=
  omap (λ ev, match ev with EvGet i j => Some (i, j) | _ => None end) tr.
Definition dumps (tr : list event) : list (nat * job * Z) :=
  omap (λ ev, match ev with EvDump i j r => Some (i, j, r) | _ => None end) tr.
Definition schemas (tr : list event) : list (string * Z) :=
  omap (λ ev, match ev with EvSchema d r => Some (d, r) | _ => None end) tr.

(** ** What the catalog and the schema checks hold in store *)

(** [verifySchema(db)] returns normally. *)
Definition schema_ok (e : Env) (a : Args) (db : string) : bool :=
  bool_decide ((shell e (schema_cmd a db)).1 = 0).

Definition tables_of (e : Env) (db : string) : list string :=
  match list_tables e db with inr ts => ts | inl _ => [] end.

Definition listing_ok (e : Env) (db : string) : bool :=
  match list_tables e db with inr _ => true | inl _ => false end.

(** The jobs [addTablesFromDB(db)] puts on the queue, in order. *)
Definition jobs_of (e : Env) (db : string) : list job :=
  map (pair db) (tables_of e db).

Definition all_jobs (e : Env) (dbs : list string) : list job :=
  concat (map (jobs_of e) dbs).

Definition db_ok (e : Env) (a : Args) (db : string) : bool :=
  schema_ok e a db && listing_ok e db.

(** The exception that ends the processing of [db], if any. *)
Definition db_failure (e : Env) (a : Args) (db : string) : option string :=
  if schema_ok e a db then
    match list_tables e db with inl err => Some err | inr _ => None end
  else Some ("Failed to verify schema for DB " +:+ db).

Definition len {A} (l : list A) : Z := Z.of_nat (length l).

Definition in_drain (p : pc) : Prop :=
  match p with
  | PDrain _ | PAlive _ | PSleep _ | PDone Returned | PDone (Exit _) => True
  | _ => False
  end.

(** Where the supervisor is, against what it has put on the queue so far,
    for a run over the databases [dbs]. *)
Inductive seq_inv (e : Env) (a : Args) (dbs : list string) : pc → list job → Prop :=
| SeqFor done rest :
    dbs = done ++ rest → forallb (db_ok e a) done = true →
    seq_inv e a dbs (PFor rest (len (all_jobs e done))) (all_jobs e done)
| SeqAdd done db rest :
    dbs = done ++ db :: rest → forallb (db_ok e a) done = true →
    schema_ok e a db = true →
    seq_inv e a dbs (PAdd db rest (len (all_jobs e done))) (all_jobs e done)
| SeqPut done db rest ts todo :
    dbs = done ++ db :: rest → forallb (db_ok e a) done = true →
    schema_ok e a db = true → list_tables e db = inr (ts ++ todo) →
    seq_inv e a dbs
      (PPut db todo (len (ts ++ todo)) rest (len (all_jobs e done)))
      (all_jobs e done ++ map (pair db) ts)
| SeqDrain p :
    in_drain p → forallb (db_ok e a) dbs = true → all_jobs e dbs ≠ [] →
    seq_inv e a dbs p (all_jobs e dbs)
| SeqFailed done db rest msg :
    dbs = done ++ db :: rest → forallb (db_ok e a) done = true →
    db_ok e a db = false → db_failure e a db = Some msg →
    seq_inv e a dbs (PDone (Raised msg)) (all_jobs e done)
| SeqEmpty :
    forallb (db_ok e a) dbs = true → all_jobs e dbs = [] →
    seq_inv e a dbs (PDone (Raised "No tables found to be dumped!")) [].

Definition seq_ok (e : Env) (a : Args) (s : state) : Prop :=
  s = init ∨
  match startup e a with
  | inl msg =>
      main s = PDone (Raised msg) ∧ workers s = [] ∧ queue s = [] ∧ trace s = []
  | inr dbs =>
      seq_inv e a dbs (main s) (puts (trace s)) ∧
      length (workers s) = Z.to_nat (jobs a)
  end.

(** Everything put on the queue is either still there or was taken off,
    in the same order. *)
Definition fifo_ok (s : state) : Prop :=
  puts (trace s) = (gets (trace s)).*2 ++ queue s.

(** With no worker process nothing is taken off the queue and the liveness
    check cannot fail. *)
Definition idle_inv (s : state) : Prop :=
  workers s = [] ∧ gets (trace s) = [] ∧ ∀ c, main s ≠ PDone (Exit c).

(** ** Counting scheduled actions *)

Global Instance action_eq_dec : EqDecision action.
Proof. solve_decision. Defined.

(** How often [act] is scheduled in [sched]. *)
Definition times (act : action) (sched : list action) : nat :=
  length (filter (λ x, x = act) sched).

(** No worker is killed from outside. *)
Definition is_kill (act : action) : bool :=
  match act with AKill _ _ => true | _ => false end.

Definition no_kill (sched : list action) : bool :=
  forallb (λ act, negb (is_kill act)) sched.

(** The statements the supervisor still executes before it either ends or
    enters the drain loop: from the head of [for db in dbs], and from each
    of its statements. *)
Fixpoint for_left (e : Env) (a : Args) (dbs : list string) : nat :=
  match dbs with
  | [] => 1
  | db :: rest =>
      if schema_ok e a db then
        match list_tables e db with
        | inl _ => 2
        | inr ts => 3 + length ts + for_left e a rest
        end
      else 1
  end.

Definition main_left (e : Env) (a : Args) (p : pc) : nat :=
  match p with
  | PStart =>
      1 + match startup e a with inr dbs => for_left e a dbs | inl _ => 0 end
  | PFor dbs _ => for_left e a dbs
  | PAdd db dbs _ =>
      match list_tables e db with
      | inl _ => 1
      | inr ts => 2 + length ts + for_left e a dbs
      end
  | PPut db todo _ dbs _ => 1 + length todo + for_left e a dbs
  | PDrain _ | PAlive _ | PSleep _ | PDone _ => 0
  end.

(** Every put of a table is preceded by a successful schema check of its
    database. *)
Definition validated_before_put (tr : list event) : Prop :=
  ∀ pre db t post, tr = pre ++ EvPut (db, t) :: post → EvSchema db 0 ∈ pre.

(** The database whose tables the supervisor is about to list or put. *)
Definition current_db (p : pc) : option string :=
  match p with
  | PAdd db _ _ | PPut db _ _ _ _ => Some db
  | _ => None
  end.

(** ** Substrings *)

(** [sub] occurs somewhere in [s]. *)
Definition occurs (sub s : string) : Prop :=
  ∃ pre post, s = pre +:+ sub +:+ post.

(** A non-empty string whose last character is not whitespace. *)
Fixpoint ends_nonspace (p : string) : bool :=
  match p with
  | EmptyString => false
  | String c EmptyString => negb (Py.isspace c)
  | String _ p' => ends_nonspace p'
  end.

(** A string whose first character is not whitespace. *)
Definition starts_nonspace (p : string) : bool :=
  match p with
  | EmptyString => false
  | String c _ => negb (Py.isspace c)
  end.

(** ** Jobs taken and jobs dumped *)

Global Instance wstate_eq_dec : EqDecision wstate.
Proof. solve_decision. Defined.

(** The jobs taken off the queue so far, and the jobs whose dump has
    finished, in order. *)
Definition taken (s : state) : list job := (gets (trace s)).*2.
Definition dumped (s : state) : list job := (dumps (trace s)).*1.*2.

(** How often [j] occurs in [l]. *)
Definition occ (j : job) (l : list job) : nat :=
  count_occ (λ x y : job, decide (x = y)) l j.

(** The workers that hold [j] right now. *)
Definition inflight (j : job) (ws : list wstate) : nat :=
  length (filter (λ w, w = WDumping j) ws).

(** ** Runs without a crash *)

(** The dump of [j] ends the worker that runs it. *)
Definition dump_hard (e : Env) (a : Args) (j : job) : bool :=
  bool_decide ((dump_table e a j).1.2 = WExited 1).

Definition no_hard_failure (e : Env) (a : Args) (dbs : list string) : bool :=
  forallb (λ j, negb (dump_hard e a j)) (all_jobs e dbs).





(** ** Schedules that go on for ever *)



(** ** Concrete runs *)

Definition demo_args (j : Z) : Args :=
  {| bindir := "/usr/lib/postgresql/9.6/bin"; host := "replica1"; port := 5432;
     username := Some "postgres"; jobs := j; dbname := None; quiet := false;
     unknown_args := [] |}.

(** One database with one table whose dump fails on a damaged page. *)
Definition damaged_env : Env :=
  {| path_exists := λ p, bool_decide (p = "/usr/lib/postgresql/9.6/bin/pg_dumpall");
     list_databases := inr ["db1"];
     list_tables := λ _, inr ["public.t"];
     shell := λ c,
       if bool_decide (c = table_cmd (demo_args 1) ("db1", "public.t"))
       then (1, "pg_dump: error: Dumping the contents of table failed: invalid page in block 0")
       else (0, EmptyString) |}.

(** The supervisor starts, the worker starts, the table is listed and put,
    the feeder thread writes it to the pipe, the worker takes it, the
    supervisor reaches the drain loop, the dump fails, the supervisor tests
    the queue. *)
Definition damaged_sched : list action :=
  [AMain; AWorker 0; AMain; AMain; AMain; AFeed; AWorker 0; AMain; AMain;
   AWorker 0; AMain].

(** One database with two healthy tables, for two workers. *)
Definition healthy_env : Env :=
  {| path_exists := λ p, bool_decide (p = "/usr/lib/postgresql/9.6/bin/pg_dumpall");
     list_databases := inr ["db1"];
     list_tables := λ _, inr ["public.big"; "public.small"];
     shell := λ _, (0, EmptyString) |}.

(** Both tables are put and written to the pipe, and the supervisor goes to
    sleep in the drain loop; worker 0 is killed with both jobs still queued;
    worker 1 takes the first job, finishes it and takes the second. *)
Definition kill_sched_before : list action :=
  [AMain; AMain; AMain; AMain; AMain; AFeed; AFeed; AMain; AMain; AMain; AMain;
   AKill 0 0].

Definition kill_sched_after : list action :=
  [AWorker 1; AWorker 1; AWorker 1; AWorker 1; AMain; AMain].

(** A server on which the second database has an unreadable catalog. *)
Definition broken_schema_env : Env :=
  {| path_exists := λ p, bool_decide (p = "/usr/lib/postgresql/9.6/bin/pg_dumpall");
     list_databases := inr ["db1"; "db2"];
     list_tables := λ _, inr ["public.t"];
     shell := λ c,
       if bool_decide (c = schema_cmd (demo_args 1) "db2")
       then (1, "pg_dump: error: could not open relation pg_class")
       else (0, EmptyString) |}.

(** A server whose only database has no user table. *)
Definition empty_env : Env :=
  {| path_exists := λ p, bool_decide (p = "/usr/lib/postgresql/9.6/bin/pg_dumpall");
     list_databases := inr ["db1"];
     list_tables := λ _, inr [];
     shell := λ _, (0, EmptyString) |}.


(** [-d nope] *)
Definition nope_args : Args :=
  {| bindir := "/usr/lib/postgresql/9.6/bin"; host := "replica1"; port := 5432;
     username := Some "postgres"; jobs := 1; dbname := Some "nope"; quiet := false;
     unknown_args := [] |}.

(** A worker about to finish the dump of the damaged table. *)
Definition dumping_state : state :=
  {| main := PSleep 0; workers := [WDumping ("db1", "public.t")];
     buffer := []; pipe := [];
     log := []; trace := [EvGet 0 ("db1", "public.t")] |}.

(** The supervisor alone: both tables are put, and the queue is tested
    before the feeder thread has written anything to the pipe. *)
Definition early_sched : list action := replicate 8 AMain.


(** ** Further observations of a run *)

(** The format of the progress line of the drain loop. *)
Definition progress_fmt : string := "%s tables in the queue...".

Definition progress_lines (l : list logrec) : list logrec :=
  filter (λ r, fmt r = progress_fmt) l.

(** The value of [i] while the supervisor is in the drain loop. *)
Definition loop_counter (p : pc) : option Z :=
  match p with
  | PDrain i | PAlive i | PSleep i => Some i
  | _ => None
  end.

(** What the progress lines say about [i]. *)
Definition progress_ok (s : state) : Prop :=
  match main s with
  | PDone _ => True
  | PDrain i | PAlive i | PSleep i =>
      0 ≤ i ∧ i `mod` 5 = 0 ∧ len (progress_lines (log s)) = i `div` 60
  | _ => progress_lines (log s) = []
  end.

(** The supervisor leaves by [exit] only with code 1 and a worker gone. *)
Definition ending_ok (s : state) : Prop :=
  match main s with
  | PDone (Exit c) => c = 1 ∧ allWorkersAlive (workers s) = false
  | _ => True
  end.

(** Statements of the drain loop up to and including the liveness check. *)
Definition check_left (p : pc) : nat :=
  match p with
  | PSleep _ => 3
  | PDrain _ => 2
  | PAlive _ => 1
  | _ => 0
  end.

(** Two workers, one killed while the supervisor is at its liveness
    check. *)
Definition alive_check_sched : list action :=
  replicate 5 AMain ++ [AFeed] ++ replicate 3 AMain ++ [AKill 0 0].

(** The supervisor and the feeder thread alone: start-up, two puts, one
    item written to the pipe, then twelve rounds of the drain loop with no
    worker taking a job. *)
Definition twelve_sleeps_sched : list action :=
  replicate 5 AMain ++ [AFeed] ++ replicate 38 AMain.

(** The supervisor has put every job and the feeder thread has written
    the first one to the pipe. *)
Definition fed_sched : list action := replicate 5 AMain ++ [AFeed].


(** Both workers are killed with both jobs still queued. *)
Definition all_killed_sched : list action := kill_sched_before ++ [AKill 1 0].

(** ** Log records by format and by level *)

Global Instance level_eq_dec : EqDecision level.
Proof. solve_decision. Defined.

Definition lines (f : string) (l : list logrec) : list logrec :=
  filter (λ r, fmt r = f) l.


Definition done_fmt : string := "Done. No errors encountered".
Definition not_alive_fmt : string := "Not all worker processes are alive. Exiting".
Definition failed_fmt : string := "Failed to dump contents of table %s [%s]".

(** The last word of the supervisor in the log. *)
Definition verdict_ok (s : state) : Prop :=
  lines done_fmt (log s)
  = match main s with PDone Returned => [info done_fmt []] | _ => [] end ∧
  lines not_alive_fmt (log s)
  = match main s with PDone (Exit _) => [error not_alive_fmt []] | _ => [] end.

(** ** Counting workers and dumps *)

(** The workers of the pool that satisfy [p]. *)
Definition count (p : wstate → bool) (ws : list wstate) : nat :=
  length (filter (λ w, p w = true) ws).

Definition is_dumping (w : wstate) : bool :=
  match w with WDumping _ => true | _ => false end.

Definition exited_with (c : Z) (w : wstate) : bool :=
  match w with WExited c' => c' =? c | _ => false end.

(** A worker gone with code 1 has logged its failure; a failure logged
    means a worker gone with code 1 or killed before it could leave; and
    a worker that is gone left with code 1 or was killed. *)
Definition failures_ok (s : state) : Prop :=
  (count (exited_with 1) (workers s) ≤ length (lines failed_fmt (log s)))%nat ∧
  (length (lines failed_fmt (log s))
   ≤ count (exited_with 1) (workers s) + count (exited_with (-9)) (workers s))%nat ∧
  ∀ i c, workers s !! i = Some (WExited c) → c = 1 ∨ c = -9.

(** Jobs taken off the queue are dumped, being dumped, or were lost with a
    killed worker. *)
Definition taken_ok (s : state) : Prop :=
  (length (dumped s) + count is_dumping (workers s) ≤ length (taken s))%nat ∧
  (length (taken s) ≤ length (dumped s) + count is_dumping (workers s)
                     + count (exited_with (-9)) (workers s))%nat.

(** The events of worker [i] in the trace. *)
Definition gets_of (i : nat) (tr : list event) : list (nat * job) :=
  filter (λ g, g.1 = i) (gets tr).
Definition dumps_of (i : nat) (tr : list event) : list (nat * job * Z) :=
  filter (λ d, d.1.1 = i) (dumps tr).

(** ** What the log can hold *)






(** ** The schema checks of a run *)

(** The checks the loop over [dbs] makes, with their exit codes: one per
    database, in order, up to the first database whose check or listing
    fails. *)
Fixpoint schema_run (e : Env) (a : Args) (dbs : list string) : list (string * Z) :=
  match dbs with
  | [] => []
  | db :: rest =>
      (db, (shell e (schema_cmd a db)).1)
      :: (if db_ok e a db then schema_run e a rest else [])
  end.

(** The checks still to come when the supervisor is at [p]. *)
Definition schema_todo (e : Env) (a : Args) (p : pc) : list (string * Z) :=
  match p with
  | PStart =>
      match startup e a with inr dbs => schema_run e a dbs | inl _ => [] end
  | PFor dbs _ | PPut _ _ _ dbs _ => schema_run e a dbs
  | PAdd db dbs _ => if listing_ok e db then schema_run e a dbs else []
  | _ => []
  end.

Definition schemas_ok (e : Env) (a : Args) (s : state) : Prop :=
  schemas (trace s) ++ schema_todo e a (main s) = schema_todo e a PStart.

(** ** Why a worker is gone *)

(** Without a kill a worker is gone only by a dump that failed hard, the
    last thing it did. *)
Definition cause_ok (e : Env) (a : Args) (s : state) : Prop :=
  ∀ i c, workers s !! i = Some (WExited c) →
    c = 1 ∧ ∃ j, last (dumps_of i (trace s)) = Some (i, j, (dump_table e a j).2) ∧
                 dump_hard e a j = true.

(** ** The line that opens the drain loop *)

Definition waiting_fmt : string := "Waiting for %s tables to be pg_dumped...".

(** The supervisor has reached the drain loop. *)
Definition entered_loop (p : pc) : bool :=
  match p with
  | PDrain _ | PAlive _ | PSleep _ | PDone Returned | PDone (Exit _) => true
  | _ => false
  end.

Definition waiting_ok (s : state) : Prop :=
  lines waiting_fmt (log s)
  = if entered_loop (main s)
    then [info waiting_fmt [VInt (len (puts (trace s)))]]
    else [].

(** [-d db1] *)
Definition db1_args : Args :=
  {| bindir := "/usr/lib/postgresql/9.6/bin"; host := "replica1"; port := 5432;
     username := Some "postgres"; jobs := 1; dbname := Some "db1"; quiet := false;
     unknown_args := [] |}.

(** The supervisor alone, up to the failing schema check of the second
    database. *)
Definition broken_schema_sched : list action := replicate 7 AMain.

(** ** Whitespace *)

(** Every character of [s] is whitespace. *)
Fixpoint all_space (s : string) : bool :=
  match s with
  | EmptyString => true
  | String c s' => Py.isspace c && all_space s'
  end.

(** ** Ending under any failure *)






(** ** The numbers of the progress lines *)

(** The queue sizes reported by the progress lines, oldest first. *)
Definition progress_vals (l : list logrec) : list Z :=
  omap (λ r, match fargs r with [VInt n] => Some n | _ => None end)
       (progress_lines l).

(** No element is larger than one before it. *)
Fixpoint descending (l : list Z) : Prop :=
  match l with
  | [] => True
  | m :: l' => Forall (λ n, n ≤ m) l' ∧ descending l'
  end.

Definition countdown_ok (s : state) : Prop :=
  (entered_loop (main s) = false → progress_lines (log s) = []) ∧
  length (progress_vals (log s)) = length (progress_lines (log s)) ∧
  Forall (λ n, len (queue s) ≤ n) (progress_vals (log s)) ∧
  descending (progress_vals (log s)).

(** * Properties *)

(** ** Schedules *)

Section Exec.
Context (e : Env) (a : Args).

Lemma exec_app s1 s2 s : exec e a (s1 ++ s2) s = exec e a s2 (exec e a s1 s).
Proof. apply foldl_app. Qed.

Lemma run_snoc sched act : run e a (sched ++ [act]) = step e a act (run e a sched).
Proof. unfold run. by rewrite exec_app. Qed.


(** A property kept by every step is kept by every run. *)
Lemma exec_invariant (P : state → Prop) (A : action → Prop) :
  (∀ act s, A act → P s → P (step e a act s)) →
  ∀ sched s, Forall A sched → P s → P (exec e a sched s).
Proof.
  intros Hstep sched. induction sched as [|act sched IH]; intros s HA HP; [done|].
  inversion_clear HA. simpl. apply IH; [done|]. by apply Hstep.
Qed.

Lemma run_invariant (P : state → Prop) :
  (∀ act s, P s → P (step e a act s)) → P init → ∀ sched, P (run e a sched).
Proof.
  intros Hstep Hinit sched.
  apply (exec_invariant P (λ _, True)); [auto | | done].
  by apply Forall_true.
Qed.

(** Only the supervisor moves the supervisor. *)
Lemma worker_step_main i s : main (worker_step e a i s) = main s.
Proof.
  unfold worker_step. repeat case_match; try done.
Qed.

Lemma kill_step_main i n s : main (kill_step e a i n s) = main s.
Proof. unfold kill_step. by repeat case_match. Qed.

Lemma feed_step_main s : main (feed_step s) = main s.
Proof. unfold feed_step. by destruct (buffer s). Qed.

Lemma step_not_main act s : act ≠ AMain → main (step e a act s) = main s.
Proof.
  intros Hne. destruct act; simpl; [done|..].
  - apply worker_step_main.
  - apply kill_step_main.
  - apply feed_step_main.
Qed.

(** Once the supervisor has ended it stays where it is. *)
Lemma main_step_done s : is_done s = true → main_step e a s = s.
Proof. unfold is_done, main_step. by destruct (main s). Qed.

Lemma step_done act s : is_done s = true → main (step e a act s) = main s.
Proof.
  intros Hd. destruct (decide (act = AMain)) as [->|Hne].
  - simpl. by rewrite main_step_done.
  - by apply step_not_main.
Qed.

Lemma exec_done sched s : is_done s = true → main (exec e a sched s) = main s.
Proof.
  revert s. induction sched as [|act sched IH]; intros s Hd; [done|].
  simpl. rewrite IH.
  - by apply step_done.
  - unfold is_done in *. by rewrite step_done.
Qed.

End Exec.

Section Invariants.
Context (e : Env) (a : Args).

Lemma puts_app t1 t2 : puts (t1 ++ t2) = puts t1 ++ puts t2.
Proof. apply omap_app. Qed.
Lemma gets_app t1 t2 : gets (t1 ++ t2) = gets t1 ++ gets t2.
Proof. apply omap_app. Qed.
Lemma dumps_app t1 t2 : dumps (t1 ++ t2) = dumps t1 ++ dumps t2.
Proof. apply omap_app. Qed.
Lemma schemas_app t1 t2 : schemas (t1 ++ t2) = schemas t1 ++ schemas t2.
Proof. apply omap_app. Qed.

Lemma all_jobs_app d1 d2 : all_jobs e (d1 ++ d2) = all_jobs e d1 ++ all_jobs e d2.
Proof. unfold all_jobs. by rewrite map_app, concat_app. Qed.

Lemma all_jobs_snoc d db : all_jobs e (d ++ [db]) = all_jobs e d ++ jobs_of e db.
Proof. rewrite all_jobs_app. unfold all_jobs. simpl. by rewrite app_nil_r. Qed.

Lemma fifo_ok_step act s : fifo_ok s → fifo_ok (step e a act s).
Proof.
  unfold fifo_ok, step, queue. intros H.
  destruct act as [|i|i n|].
  - unfold main_step, goto.
    repeat case_match; simpl;
      rewrite ?puts_app, ?gets_app, ?app_nil_r; try done.
    rewrite H, <- !app_assoc. reflexivity.
  - unfold worker_step.
    destruct (workers s !! i) as [[| |j|c]|]; try done.
    + destruct (pipe s) as [|j q] eqn:Hq; [by rewrite Hq|]. simpl.
      rewrite puts_app, gets_app, fmap_app. simpl.
      by rewrite app_nil_r, H, <- app_assoc.
    + destruct (dump_table e a j) as [[l w] rc]. simpl.
      rewrite puts_app, gets_app. simpl. by rewrite !app_nil_r.
  - unfold kill_step. by repeat case_match.
  - unfold feed_step. destruct (buffer s) as [|j b] eqn:Hb; [by rewrite Hb|].
    simpl. by rewrite H, <- app_assoc.
Qed.

Lemma fifo_ok_run sched : fifo_ok (run e a sched).
Proof. apply run_invariant; [apply fifo_ok_step | done]. Qed.

Lemma len_app {A} (l1 l2 : list A) : len (l1 ++ l2) = len l1 + len l2.
Proof. unfold len. rewrite length_app. lia. Qed.

Lemma len_nil_inv {A} (l : list A) : len l = 0 → l = [].
Proof. destruct l; [done|]. unfold len. simpl. lia. Qed.

Lemma seq_ok_worker i s : seq_ok e a s → seq_ok e a (worker_step e a i s).
Proof.
  intros [->|H]; [by left|]. right.
  destruct s as [m ws bf q l tr]. unfold worker_step. simpl in *.
  destruct (startup e a) as [msg|dbs].
  - destruct H as (-> & -> & Hq & ->). done.
  - destruct H as [H Hlen].
    destruct (ws !! i) as [[| |j|c]|]; simpl; try done.
    + by rewrite length_insert.
    + destruct q as [|j q]; simpl; [done|].
      rewrite puts_app, length_insert. simpl. by rewrite app_nil_r.
    + destruct (dump_table e a j) as [[l' w] rc]. simpl.
      rewrite puts_app, length_insert. simpl. by rewrite app_nil_r.
Qed.

Lemma seq_ok_kill i n s : seq_ok e a s → seq_ok e a (kill_step e a i n s).
Proof.
  intros [->|H]; [by left|]. right.
  destruct s as [m ws bf q l tr]. unfold kill_step. simpl in *.
  destruct (startup e a) as [msg|dbs].
  - destruct H as (-> & -> & Hq & ->). done.
  - destruct H as [H Hlen].
    destruct (ws !! i) as [w|]; [|done].
    destruct (is_alive w); [|done]. simpl. by rewrite length_insert.
Qed.

Lemma seq_ok_feed s : seq_ok e a s → seq_ok e a (feed_step s).
Proof.
  intros [->|H]; [by left|]. right.
  destruct s as [m ws bf q l tr]. unfold feed_step, queue in *. simpl in *.
  destruct (startup e a) as [msg|dbs].
  - destruct H as (-> & -> & Hq & ->). apply app_eq_nil in Hq as [-> ->]. done.
  - by destruct bf.
Qed.

Lemma seq_ok_main s : seq_ok e a s → seq_ok e a (main_step e a s).
Proof.
  intros [->|H]; right.
  { unfold main_step. simpl. destruct (startup e a) as [msg|dbs]; simpl; [done|].
    split.
    - by apply (SeqFor e a dbs [] dbs).
    - unfold launchWorkers. simpl. by rewrite length_replicate. }
  destruct s as [m ws bf q l tr]. simpl in *.
  destruct (startup e a) as [msg|dbs].
  { destruct H as (-> & -> & Hq & ->). done. }
  destruct H as [H Hlen].
  inversion H as [done rest Hd Hf Hm Hp | done db rest Hd Hf Hs Hm Hp
                 | done db rest ts todo Hd Hf Hs Ht Hm Hp | p Hp Hf Hne Hm Hj
                 | done db rest msg Hd Hf Hb Hmsg Hm Hp | Hf He Hm Hp ];
    subst m; unfold main_step; simpl.
  - (* for db in dbs *)
    destruct rest as [|db rest].
    + rewrite app_nil_r in Hd. subst done.
      case_bool_decide as Hz; simpl; rewrite puts_app, app_nil_r, <- Hp.
      * apply len_nil_inv in Hz. rewrite Hz. split; [|done]. by apply SeqEmpty.
      * split; [|done]. apply SeqDrain; [done|done|].
        intros Hz'. by rewrite Hz' in Hz.
    + case_bool_decide as Hz; simpl; rewrite puts_app, app_nil_r, <- Hp;
        (split; [|done]).
      * eapply SeqFailed; [done..| |].
        -- unfold db_ok, schema_ok. by rewrite bool_decide_eq_false_2.
        -- unfold db_failure, schema_ok. by rewrite bool_decide_eq_false_2.
      * apply SeqAdd; [done..|].
        unfold schema_ok. apply bool_decide_eq_true_2.
        destruct (decide ((shell e (schema_cmd a db)).1 = 0)); [done|].
        by destruct Hz.
  - (* addTablesFromDB *)
    destruct (list_tables e db) as [err|tables] eqn:Ht; simpl;
      rewrite puts_app, app_nil_r, <- Hp; (split; [|done]).
    + eapply SeqFailed; [done..| |].
      * unfold db_ok, listing_ok. rewrite Ht. by rewrite andb_false_r.
      * unfold db_failure. by rewrite Hs, Ht.
    + replace (all_jobs e done) with (all_jobs e done ++ map (pair db) [])
        at 2 by (simpl; by rewrite app_nil_r).
      by apply (SeqPut e a dbs done db rest [] tables).
  - (* queue.put *)
    destruct todo as [|t todo]; simpl.
    + rewrite puts_app. simpl (puts []). rewrite !app_nil_r.
      rewrite app_nil_r in Ht. rewrite <- Hp. split; [|done].
      assert (all_jobs e (done ++ [db]) = all_jobs e done ++ map (pair db) ts) as Hj.
      { rewrite all_jobs_snoc. unfold jobs_of, tables_of. by rewrite Ht. }
      assert (len (all_jobs e done) + len ts = len (all_jobs e (done ++ [db]))) as ->.
      { rewrite Hj, len_app. unfold len. by rewrite length_map. }
      rewrite <- Hj. apply SeqFor.
      * by rewrite <- app_assoc.
      * rewrite forallb_app, Hf. simpl. unfold db_ok, listing_ok.
        by rewrite Hs, Ht.
    + rewrite puts_app, <- Hp. simpl. split; [|done].
      assert (ts ++ t :: todo = (ts ++ [t]) ++ todo) as Hts
        by (by rewrite <- app_assoc).
      assert ((all_jobs e done ++ map (pair db) ts) ++ [(db, t)]
              = all_jobs e done ++ map (pair db) (ts ++ [t])) as Hjs
        by (by rewrite map_app, app_assoc).
      rewrite Hts, Hjs. apply SeqPut; try done. by rewrite <- Hts.
  - (* the drain loop *)
    destruct p as [| | | |i|i|i|[]]; try done; simpl.
    + case_bool_decide; simpl; rewrite puts_app, app_nil_r, <- Hj;
        (split; [|done]); by apply SeqDrain.
    + destruct (allWorkersAlive ws); simpl; rewrite puts_app, app_nil_r, <- Hj;
        (split; [|done]); by apply SeqDrain.
    + rewrite puts_app, app_nil_r, <- Hj. split; [|done]. by apply SeqDrain.
  - rewrite <- Hp. split; [|done]. by eapply SeqFailed.
  - rewrite <- Hp. split; [|done]. by apply SeqEmpty.
Qed.

Lemma seq_ok_step act s : seq_ok e a s → seq_ok e a (step e a act s).
Proof.
  intros H. unfold step.
  destruct act; auto using seq_ok_main, seq_ok_worker, seq_ok_kill, seq_ok_feed.
Qed.

Lemma seq_ok_run sched : seq_ok e a (run e a sched).
Proof. apply run_invariant; [apply seq_ok_step | by left]. Qed.

End Invariants.

(** ** The liveness check *)

Lemma allWorkersAlive_spec (ws : list wstate) :
  allWorkersAlive ws = true ↔ ∀ w, w ∈ ws → is_alive w = true.
Proof.
  induction ws as [|w ws IH]; simpl.
  - split; [|done]. intros _ w Hw. by apply elem_of_nil in Hw.
  - destruct (is_alive w) eqn:Hw; simpl.
    + rewrite IH. split.
      * intros H w' [->|Hin]%elem_of_cons; auto.
      * intros H w' Hin. apply H. by right.
    + split; [done|]. intros H. rewrite <- Hw. apply H. by left.
Qed.

Section NoWorkers.
Context (e : Env) (a : Args) (Hjobs : jobs a ≤ 0).

Lemma idle_inv_step act s : idle_inv s → idle_inv (step e a act s).
Proof using Hjobs.
  intros (Hw & Hg & Hm). unfold step.
  destruct s as [m ws bf q l tr]. simpl in *. subst ws.
  destruct act as [|i|i n|]; [|done|done|by destruct bf].
  unfold main_step, goto, idle_inv. simpl.
  destruct m; repeat case_match; simpl;
    rewrite ?gets_app, ?app_nil_r; simpl; rewrite ?app_nil_r;
    try (split_and!; done).
  all: unfold launchWorkers; by replace (Z.to_nat (jobs a)) with 0%nat by lia.
Qed.

Lemma idle_inv_run sched : idle_inv (run e a sched).
Proof using Hjobs. apply run_invariant; [apply idle_inv_step | done]. Qed.

End NoWorkers.

(** C10: [allWorkersAlive] is true exactly when every worker in the list
    is alive, so it is true for the empty list; a run with a worker count of
    zero (or less) launches no worker, passes every liveness check (the
    supervisor never takes the [exit(1)] of the drain loop), and no job is
    ever taken off the queue. *)
Theorem C10_zero_workers_pass_liveness :
  (∀ ws, allWorkersAlive ws = true ↔ ∀ w, w ∈ ws → is_alive w = true) ∧
  allWorkersAlive [] = true ∧
  (∀ e a sched, jobs a ≤ 0 →
     workers (run e a sched) = [] ∧
     allWorkersAlive (workers (run e a sched)) = true ∧
     gets (trace (run e a sched)) = [] ∧
     ∀ c, main (run e a sched) ≠ PDone (Exit c)).
Proof.
  split; [apply allWorkersAlive_spec|]. split; [done|].
  intros e a sched Hj.
  destruct (idle_inv_run e a Hj sched) as (Hw & Hg & Hm).
  rewrite Hw. done.
Qed.

(** ** The supervisor up to the drain loop *)

Section Sequential.
Context (e : Env) (a : Args).

Lemma schema_ok_false db :
  (shell e (schema_cmd a db)).1 ≠ 0 → schema_ok e a db = false.
Proof. intros H. unfold schema_ok. by rewrite bool_decide_eq_false_2. Qed.

Lemma schema_ok_true db :
  (shell e (schema_cmd a db)).1 = 0 → schema_ok e a db = true.
Proof. intros H. unfold schema_ok. by apply bool_decide_eq_true_2. Qed.

Lemma main_left_step s :
  main_left e a (main s) ≠ 0%nat →
  S (main_left e a (main (step e a AMain s))) = main_left e a (main s).
Proof.
  destruct s as [m ws bf q l tr]. unfold step, main_step. simpl.
  destruct m as [|dbs n|db dbs n|db todo c dbs n| | | |r]; simpl; try done; intros _.
  - by destruct (startup e a).
  - destruct dbs as [|db dbs]; simpl.
    + by case_bool_decide.
    + case_bool_decide as Hz; simpl.
      * by rewrite schema_ok_false.
      * rewrite schema_ok_true by done. by destruct (list_tables e db).
  - by destruct (list_tables e db).
  - by destruct todo.
Qed.

Lemma for_left_pos dbs : (1 ≤ for_left e a dbs)%nat.
Proof.
  destruct dbs as [|db dbs]; simpl; [lia|].
  destruct (schema_ok e a db); [|lia]. destruct (list_tables e db); lia.
Qed.

Lemma main_left_mono act s :
  (main_left e a (main (step e a act s)) ≤ main_left e a (main s))%nat.
Proof.
  destruct (decide (act = AMain)) as [->|Hne].
  - destruct (decide (main_left e a (main s) = 0%nat)) as [Hz|Hz].
    + destruct s as [m ws bf q l tr]. unfold step, main_step. simpl in *.
      destruct m as [|dbs n|db dbs n|db todo c dbs n|i|i|i|r];
        simpl in *; try done; try lia.
      * pose proof (for_left_pos dbs). lia.
      * destruct (list_tables e db); lia.
      * case_bool_decide; simpl; lia.
      * destruct (allWorkersAlive ws); simpl; lia.
    + apply main_left_step in Hz. lia.
  - by rewrite step_not_main.
Qed.

(** Enough turns of the supervisor bring it to the drain loop or to its
    end, whatever the workers do in between. *)
Lemma main_left_exec sched s :
  (main_left e a (main s) ≤ times AMain sched)%nat →
  main_left e a (main (exec e a sched s)) = 0%nat.
Proof.
  revert s. induction sched as [|act sched IH]; intros s Hle.
  - unfold times in Hle. simpl in *. lia.
  - simpl. apply IH.
    destruct (decide (act = AMain)) as [->|Hne].
    + unfold times in *. rewrite filter_cons_True in Hle by done. simpl in Hle.
      destruct (decide (main_left e a (main s) = 0%nat)) as [Hz|Hz].
      * pose proof (main_left_mono AMain s). lia.
      * apply main_left_step in Hz. lia.
    + unfold times in *. rewrite filter_cons_False in Hle by done.
      pose proof (main_left_mono act s). lia.
Qed.

Lemma main_left_0 p :
  main_left e a p = 0%nat →
  (∃ r, p = PDone r) ∨ (∃ i, p = PDrain i ∨ p = PAlive i ∨ p = PSleep i).
Proof.
  destruct p as [|dbs n|db dbs n|db todo c dbs n|i|i|i|r]; simpl;
    try lia; eauto.
  - pose proof (for_left_pos dbs). lia.
  - destruct (list_tables e db); lia.
Qed.

(** The supervisor never returns to its first statement. *)
Lemma not_start_step act s : main s ≠ PStart → main (step e a act s) ≠ PStart.
Proof.
  intros H. destruct (decide (act = AMain)) as [->|Hne].
  - destruct s as [m ws bf q l tr]. unfold step, main_step. simpl in *.
    destruct m; simpl; try done; repeat case_match; simpl; done.
  - by rewrite step_not_main.
Qed.

Lemma started_exec sched s : AMain ∈ sched → main (exec e a sched s) ≠ PStart.
Proof.
  revert s. induction sched as [|act sched IH]; intros s Hin.
  - by apply elem_of_nil in Hin.
  - simpl. apply elem_of_cons in Hin as [<-|Hin]; [|by apply IH].
    apply (exec_invariant e a (λ s, main s ≠ PStart) (λ _, True)).
    + intros. by apply not_start_step.
    + by apply Forall_true.
    + destruct s as [m ws bf q l tr]. unfold step, main_step. simpl.
      destruct m; simpl; try done; repeat case_match; simpl; done.
Qed.

End Sequential.

(** ** Start-up failures *)

Section Startup.
Context (e : Env) (a : Args).

Lemma seq_inv_run dbs sched :
  startup e a = inr dbs →
  run e a sched = init ∨
  (seq_inv e a dbs (main (run e a sched)) (puts (trace (run e a sched))) ∧
   length (workers (run e a sched)) = Z.to_nat (jobs a)).
Proof.
  intros Hs. destruct (seq_ok_run e a sched) as [H|H]; [by left|right].
  by rewrite Hs in H.
Qed.

Lemma startup_failed_run msg sched :
  startup e a = inl msg →
  trace (run e a sched) = [] ∧ workers (run e a sched) = [] ∧
  queue (run e a sched) = [] ∧
  (main (run e a sched) = PStart ∨ main (run e a sched) = PDone (Raised msg)).
Proof.
  intros Hs. destruct (seq_ok_run e a sched) as [->|H]; [by auto|].
  rewrite Hs in H. destruct H as (? & ? & ? & ?). auto.
Qed.

Lemma startup_unknown_db d :
  dbname a = Some d → Py.truthy d = true →
  (∀ dbs, list_databases e = inr dbs → d ∉ dbs) →
  ∃ msg, startup e a = inl msg ∧
    (path_exists e (pg_dumpall_path a) = true →
     (∃ dbs, list_databases e = inr dbs) → msg = "DB not found: " +:+ d).
Proof.
  intros Hd Ht Hnot. unfold startup, select_dbs. rewrite Hd, Ht.
  destruct (path_exists e (pg_dumpall_path a)); simpl; [|by eexists].
  destruct (list_databases e) as [err|dbs] eqn:Hl.
  - eexists. split; [done|]. by intros _ [? ?].
  - unfold Py.contains. rewrite bool_decide_eq_false_2 by by apply Hnot.
    simpl. by eexists.
Qed.

End Startup.

(** [if args.dbname:] is false for an empty string: [-d ''] restricts
    nothing. *)
Lemma select_dbs_empty_name a dbs :
  dbname a = Some EmptyString → select_dbs a dbs = inr dbs.
Proof. intros H. unfold select_dbs. by rewrite H. Qed.

(** C7: when [-d] names a database that the server does not list, the run
    ends with an uncaught exception (exit code 1) in the supervisor's first
    statements: no worker is launched, nothing is put on the queue, and no
    schema check or dump is ever run.  The name is the non-empty string
    argparse stored; [if args.dbname:] is how the script sees that a
    restriction was given. *)
Theorem C7_unknown_database_aborts_before_work e a d sched :
  dbname a = Some d → Py.truthy d = true →
  (∀ dbs, list_databases e = inr dbs → d ∉ dbs) →
  trace (run e a sched) = [] ∧
  workers (run e a sched) = [] ∧
  queue (run e a sched) = [] ∧
  (∀ c, run_exit_code (run e a sched) = Some c → c = 1) ∧
  (AMain ∈ sched →
     run_exit_code (run e a sched) = Some 1 ∧
     ∃ msg, main (run e a sched) = PDone (Raised msg) ∧
       (path_exists e (pg_dumpall_path a) = true →
        (∃ dbs, list_databases e = inr dbs) → msg = "DB not found: " +:+ d)).
Proof.
  intros Hd Ht Hnot.
  destruct (startup_unknown_db e a d Hd Ht Hnot) as (msg & Hs & Hmsg).
  destruct (startup_failed_run e a msg sched Hs) as (Htr & Hw & Hq & Hm).
  split_and!; try done.
  - intros c. unfold run_exit_code. destruct Hm as [-> | ->]; [done|].
    simpl. by intros [= <-].
  - intros Hin. destruct Hm as [Hm|Hm].
    + by apply (started_exec e a sched init) in Hin.
    + unfold run_exit_code. rewrite Hm. split; [done|]. by exists msg.
Qed.

(** ** Schema checks, listing and the queue *)

Section Enqueue.
Context (e : Env) (a : Args).

Lemma db_ok_schema db : db_ok e a db = true → schema_ok e a db = true.
Proof. unfold db_ok. by intros [? ?]%andb_true_iff. Qed.

Lemma forallb_db_ok_schema dbs :
  forallb (db_ok e a) dbs = true → forallb (schema_ok e a) dbs = true.
Proof.
  induction dbs as [|db dbs IH]; simpl; [done|].
  intros [H1 H2]%andb_true_iff. by rewrite (db_ok_schema db H1), IH.
Qed.

Lemma jobs_of_listing db ts : list_tables e db = inr ts → jobs_of e db = map (pair db) ts.
Proof. intros H. unfold jobs_of, tables_of. by rewrite H. Qed.

Lemma all_jobs_db (j : job) dbs : j ∈ all_jobs e dbs → j.1 ∈ dbs.
Proof.
  induction dbs as [|db dbs IH]; simpl.
  - intros H. by apply elem_of_nil in H.
  - unfold all_jobs. simpl. intros [H|H]%elem_of_app.
    + unfold jobs_of in H. apply list_elem_of_fmap in H as (t & -> & _). by left.
    + right. by apply IH.
Qed.

(** What [seq_inv] says about the databases already checked. *)
Lemma seq_inv_verified dbs p js :
  seq_inv e a dbs p js →
  ∃ done rest, dbs = done ++ rest ∧ forallb (schema_ok e a) done = true ∧
    js `prefix_of` all_jobs e done ∧ (in_drain p → rest = []).
Proof.
  intros H.
  destruct H as [done rest Hd Hf | done db rest Hd Hf Hs
                | done db rest ts todo Hd Hf Hs Ht | p Hp Hf Hne
                | done db rest msg Hd Hf Hb Hmsg | Hf He ].
  - exists done, rest. split_and!; try done. by apply forallb_db_ok_schema.
  - exists (done ++ [db]), rest. split_and!; try done.
    + by rewrite <- app_assoc.
    + rewrite forallb_app, (forallb_db_ok_schema _ Hf). simpl. by rewrite Hs.
    + rewrite all_jobs_snoc. by apply prefix_app_r.
  - exists (done ++ [db]), rest. split_and!; try done.
    + by rewrite <- app_assoc.
    + rewrite forallb_app, (forallb_db_ok_schema _ Hf). simpl. by rewrite Hs.
    + rewrite all_jobs_snoc, (jobs_of_listing _ _ Ht), map_app.
      apply prefix_app. by apply prefix_app_r.
  - exists dbs, []. split_and!; try done.
    + by rewrite app_nil_r.
    + by apply forallb_db_ok_schema.
  - exists done, (db :: rest). split_and!; try done.
    by apply forallb_db_ok_schema.
  - exists dbs, []. split_and!; try done.
    + by rewrite app_nil_r.
    + by apply forallb_db_ok_schema.
    + apply prefix_nil.
Qed.

Lemma prefix_before_bad (f : string → bool) done rest pre d post :
  done ++ rest = pre ++ d :: post → forallb f done = true → f d = false →
  ∃ mid, pre = done ++ mid.
Proof.
  revert pre. induction done as [|x done IH]; intros pre Heq Hf Hd.
  - by exists pre.
  - simpl in Hf. apply andb_true_iff in Hf as [Hx Hf].
    destruct pre as [|y pre]; simpl in Heq.
    + injection Heq as -> _. congruence.
    + injection Heq as -> Heq. destruct (IH pre Heq Hf Hd) as [mid ->].
      by exists mid.
Qed.

(** Appending events keeps [validated_before_put]. *)
Lemma validated_snoc tr ev :
  validated_before_put tr →
  (∀ db t, ev = EvPut (db, t) → EvSchema db 0 ∈ tr) →
  validated_before_put (tr ++ [ev]).
Proof.
  intros Hv Hev pre db t post Heq.
  destruct post as [|x post _] using rev_ind.
  - apply app_inj_tail in Heq as [-> ->]. by apply (Hev db t).
  - rewrite app_comm_cons, app_assoc in Heq.
    apply app_inj_tail in Heq as [-> _]. by eapply Hv.
Qed.

Lemma validated_step act s :
  validated_before_put (trace s) ∧
    (∀ db, current_db (main s) = Some db → EvSchema db 0 ∈ trace s) →
  validated_before_put (trace (step e a act s)) ∧
    (∀ db, current_db (main (step e a act s)) = Some db →
           EvSchema db 0 ∈ trace (step e a act s)).
Proof.
  intros [Hv Hc]. unfold step.
  destruct s as [m ws bf q l tr]. simpl in *.
  destruct act as [|i|i n|].
  - unfold main_step, goto. simpl.
    destruct m as [|dbs n|db dbs n|db todo c dbs n|i|i|i|r]; simpl.
    + destruct (startup e a); simpl; rewrite ?app_nil_r; by split.
    + destruct dbs as [|db dbs]; simpl.
      * case_bool_decide; simpl; rewrite app_nil_r; by split.
      * case_bool_decide as Hz; simpl.
        -- split; [|done]. apply validated_snoc; [done|]. by intros.
        -- split; [apply validated_snoc; [done|by intros]|].
           intros db' [= <-]. apply elem_of_app. right.
           assert ((shell e (schema_cmd a db)).1 = 0) as ->
             by (destruct (decide ((shell e (schema_cmd a db)).1 = 0)); [done|by destruct Hz]).
           by left.
    + destruct (list_tables e db); simpl; rewrite app_nil_r; by split.
    + destruct todo as [|t todo]; simpl; rewrite ?app_nil_r.
      * by split.
      * split.
        -- apply validated_snoc; [done|]. intros db' t' [= <- <-]. by apply Hc.
        -- intros db' [= <-]. apply elem_of_app. left. by apply Hc.
    + case_bool_decide; simpl; rewrite app_nil_r; by split.
    + destruct (allWorkersAlive ws); simpl; rewrite app_nil_r; by split.
    + rewrite app_nil_r. by split.
    + by split.
  - unfold worker_step. simpl.
    destruct (ws !! i) as [[| |j|c]|]; simpl; try by split.
    + destruct q as [|j q]; simpl; [by split|].
      split; [apply validated_snoc; [done|by intros]|].
      intros db Hdb. apply elem_of_app. left. by apply Hc.
    + destruct (dump_table e a j) as [[l' w] rc]. simpl.
      split; [apply validated_snoc; [done|by intros]|].
      intros db Hdb. apply elem_of_app. left. by apply Hc.
  - unfold kill_step. simpl.
    destruct (ws !! i) as [w|]; [|by split].
    destruct (is_alive w); by split.
  - unfold feed_step. simpl. destruct bf; by split.
Qed.

Lemma validated_run sched : validated_before_put (trace (run e a sched)).
Proof.
  apply (run_invariant e a (λ s, validated_before_put (trace s) ∧
    (∀ db, current_db (main s) = Some db → EvSchema db 0 ∈ trace s))).
  - apply validated_step.
  - split; [|done]. intros pre db t post Heq. by destruct pre.
Qed.

End Enqueue.

(** C4: on every run, each put of a table is preceded in the run by the
    successful schema check of its database.  When the schema check of the
    database at some position of the listing fails, everything ever put on
    the queue comes from databases at earlier positions (the puts are a
    prefix of those databases' tables), the supervisor can only end with
    exit code 1, and it does so once it has had its turns. *)
Theorem C4_schema_check_gates_enqueue e a dbs sched :
  startup e a = inr dbs →
  validated_before_put (trace (run e a sched)) ∧
  ∀ pre d post, dbs = pre ++ d :: post → schema_ok e a d = false →
    puts (trace (run e a sched)) `prefix_of` all_jobs e pre ∧
    (∀ j : job, j ∈ puts (trace (run e a sched)) →
       ∃ i, (i < length pre)%nat ∧ dbs !! i = Some j.1) ∧
    (∀ c, run_exit_code (run e a sched) = Some c → c = 1) ∧
    ((main_left e a PStart ≤ times AMain sched)%nat →
     run_exit_code (run e a sched) = Some 1).
Proof.
  intros Hs. split; [apply validated_run|].
  intros pre d post Hdbs Hbad.
  assert (puts (trace (run e a sched)) `prefix_of` all_jobs e pre ∧
          ∀ r, main (run e a sched) = PDone r → ∃ msg, r = Raised msg) as [Hpre Hend].
  { destruct (seq_inv_run e a dbs sched Hs) as [->|[Hinv _]].
    - split; [apply prefix_nil|done].
    - apply seq_inv_verified in Hinv as (done & rest & Hd & Hf & Hp & Hdr).
      rewrite Hdbs in Hd.
      destruct (prefix_before_bad (schema_ok e a) done rest pre d post) as [mid ->];
        [done..|].
      split.
      + etrans; [done|]. rewrite all_jobs_app. by apply prefix_app_r.
      + intros r Hr. rewrite Hr in Hdr. destruct r as [|msg|c]; [| by eexists |].
        * specialize (Hdr I). subst rest. apply (f_equal length) in Hd.
          rewrite !length_app in Hd. simpl in Hd. lia.
        * specialize (Hdr I). subst rest. apply (f_equal length) in Hd.
          rewrite !length_app in Hd. simpl in Hd. lia. }
  assert (∀ c, run_exit_code (run e a sched) = Some c → c = 1) as Hcode.
  { intros c. unfold run_exit_code.
    destruct (main (run e a sched)) eqn:Hm; try done.
    destruct (Hend _ eq_refl) as [msg ->]. simpl. by intros [= <-]. }
  split_and!; try done.
  - intros j Hj. destruct Hpre as [k Hk].
    assert (j ∈ all_jobs e pre) as Hin by (rewrite Hk; apply elem_of_app; by left).
    apply all_jobs_db, list_elem_of_lookup in Hin as [i Hi].
    exists i. split; [by eapply lookup_lt_Some|].
    rewrite Hdbs. by apply lookup_app_l_Some.
  - intros Hle.
    pose proof (main_left_exec e a sched init Hle) as H0.
    apply main_left_0 in H0 as [[r Hr]|[i Hi]].
    + unfold run in *. unfold run_exit_code. rewrite Hr.
      destruct (Hend _ Hr) as [msg ->]. done.
    + exfalso. fold (run e a sched) in Hi.
      destruct (seq_inv_run e a dbs sched Hs) as [Hinit|[Hinv _]].
      { rewrite Hinit in Hi. by destruct Hi as [|[|]]. }
      apply seq_inv_verified in Hinv as (done & rest & Hd & Hf & Hp & Hdr).
      assert (rest = []) as -> by (apply Hdr; by destruct Hi as [->|[->| ->]]).
      rewrite app_nil_r in Hd. subst done. rewrite Hdbs in Hf.
      rewrite forallb_app in Hf. simpl in Hf. rewrite Hbad in Hf.
      by rewrite andb_false_r in Hf.
Qed.

(** ** An empty catalog *)

Section Empty.
Context (e : Env) (a : Args) (dbs : list string).
Context (Hschema : ∀ db, db ∈ dbs → schema_ok e a db = true).
Context (Hnone : ∀ db, db ∈ dbs → list_tables e db = inr []).

Lemma empty_all_jobs l : l ⊆ dbs → all_jobs e l = [].
Proof using All.
  induction l as [|db l IH]; intros Hsub; [done|].
  unfold all_jobs. simpl. fold (all_jobs e l).
  rewrite IH by set_solver.
  rewrite (jobs_of_listing e db []); [done|]. apply Hnone. set_solver.
Qed.

Lemma empty_db_ok db : db ∈ dbs → db_ok e a db = true.
Proof using All.
  intros Hin. unfold db_ok, listing_ok. by rewrite Hschema, Hnone.
Qed.

Lemma empty_for_left l : l ⊆ dbs → for_left e a l = (1 + 3 * length l)%nat.
Proof using All.
  induction l as [|db l IH]; intros Hsub; [done|].
  simpl. rewrite IH, Hschema, Hnone by set_solver. simpl. lia.
Qed.

Lemma empty_seq_inv p js :
  seq_inv e a dbs p js →
  js = [] ∧ ¬ in_drain p ∧
  ∀ r, p = PDone r → r = Raised "No tables found to be dumped!".
Proof using All.
  intros H.
  destruct H as [done rest Hd Hf | done db rest Hd Hf Hs
                | done db rest ts todo Hd Hf Hs Ht | p Hp Hf Hne
                | done db rest msg Hd Hf Hb Hmsg | Hf He ].
  - split_and!; [|by auto|done].
    apply empty_all_jobs. rewrite Hd. set_solver.
  - split_and!; [|by auto|done].
    apply empty_all_jobs. rewrite Hd. set_solver.
  - split_and!; [|by auto|done].
    rewrite Hnone in Ht by (rewrite Hd; set_solver).
    injection Ht as Ht. symmetry in Ht. apply app_eq_nil in Ht as [-> ->].
    rewrite empty_all_jobs; [done|]. rewrite Hd. set_solver.
  - destruct Hne. by apply empty_all_jobs.
  - rewrite empty_db_ok in Hb; [done|]. rewrite Hd. set_solver.
  - split_and!; [done|by auto|]. by intros r [= <-].
Qed.

End Empty.

(** C6: when every schema check succeeds and every processed database lists
    no table (in particular when there is no database at all), nothing is
    ever put on the queue, the only way the supervisor ends is the uncaught
    exception "No tables found to be dumped!", exit code 1, and it ends so
    after its 2 + 3 * (number of databases) statements. *)
Theorem C6_no_tables_is_fatal e a dbs sched :
  startup e a = inr dbs →
  (∀ db, db ∈ dbs → schema_ok e a db = true) →
  (∀ db, db ∈ dbs → list_tables e db = inr []) →
  puts (trace (run e a sched)) = [] ∧
  (∀ r, main (run e a sched) = PDone r → r = Raised "No tables found to be dumped!") ∧
  (∀ c, run_exit_code (run e a sched) = Some c → c = 1) ∧
  ((2 + 3 * length dbs ≤ times AMain sched)%nat →
   run_exit_code (run e a sched) = Some 1).
Proof.
  intros Hs Hschema Hnone.
  assert (puts (trace (run e a sched)) = [] ∧
          ¬ in_drain (main (run e a sched)) ∧
          ∀ r, main (run e a sched) = PDone r →
               r = Raised "No tables found to be dumped!") as (Hp & Hnd & Hr).
  { destruct (seq_inv_run e a dbs sched Hs) as [->|[Hinv _]].
    - simpl. split_and!; [done|tauto|done].
    - by eapply empty_seq_inv. }
  split_and!; try done.
  - intros c. unfold run_exit_code.
    destruct (main (run e a sched)) eqn:Hm; try done.
    rewrite (Hr _ eq_refl). simpl. by intros [= <-].
  - intros Hle.
    assert (main_left e a PStart ≤ times AMain sched)%nat as Hle'.
    { simpl. rewrite Hs, (empty_for_left e a dbs Hschema Hnone) by done. lia. }
    pose proof (main_left_exec e a sched init Hle') as H0.
    fold (run e a sched) in H0.
    apply main_left_0 in H0 as [[r Hm]|[i Hi]].
    + unfold run_exit_code. rewrite Hm. by rewrite (Hr _ Hm).
    + destruct Hnd. by destruct Hi as [->|[->| ->]].
Qed.

(** ** [find] and [strip] *)

Section Strings.

Lemma startswith_spec p s : Py.startswith p s = true ↔ ∃ post, s = p +:+ post.
Proof.
  revert s. induction p as [|c p IH]; intros s; simpl.
  - split; [by exists s|done].
  - destruct s as [|c' s]; simpl.
    + split; [done|]. by intros [post ?].
    + destruct (decide (c = c')) as [->|Hne].
      * rewrite IH. split.
        -- intros [post ->]. by exists post.
        -- intros [post [= ->]]. by exists post.
      * split; [done|]. intros [post [= ? ?]]. done.
Qed.

Lemma occurs_nil sub : occurs sub EmptyString ↔ sub = EmptyString.
Proof.
  split.
  - intros (pre & post & H). destruct pre; [|done]. simpl in H. by destruct sub.
  - intros ->. by exists EmptyString, EmptyString.
Qed.

Lemma occurs_cons sub c s :
  occurs sub (String c s) ↔ Py.startswith sub (String c s) = true ∨ occurs sub s.
Proof.
  split.
  - intros (pre & post & H). destruct pre as [|c' pre]; simpl in H.
    + left. apply startswith_spec. by exists post.
    + right. injection H as -> ->. by exists pre, post.
  - intros [H|(pre & post & ->)].
    + apply startswith_spec in H as [post ->]. by exists EmptyString, post.
    + by exists (String c pre), post.
Qed.

Lemma find_from_range i sub s :
  Py.find_from i sub s = -1 ∨ i ≤ Py.find_from i sub s.
Proof.
  revert i. induction s as [|c s IH]; intros i; simpl.
  - destruct (Py.startswith sub EmptyString); lia.
  - destruct (Py.startswith sub (String c s)); [lia|].
    destruct (IH (i + 1)); lia.
Qed.

Lemma find_from_occurs i sub s :
  0 ≤ i → (0 ≤ Py.find_from i sub s ↔ occurs sub s).
Proof.
  revert i. induction s as [|c s IH]; intros i Hi.
  - rewrite occurs_nil. simpl. destruct sub; simpl; [done|]. split; [lia|done].
  - rewrite occurs_cons. simpl.
    destruct (Py.startswith sub (String c s)) eqn:Hs.
    + split; [by left|done].
    + rewrite IH by lia. split; [by right|]. by intros [?|?].
Qed.

(** [output.find(sub) >= 0] holds exactly when [sub] occurs in [output]. *)
Lemma find_occurs s sub : 0 ≤ Py.find s sub ↔ occurs sub s.
Proof. unfold Py.find. by apply find_from_occurs. Qed.

Lemma lstrip_occurs sub s :
  starts_nonspace sub = true → (occurs sub (Py.lstrip s) ↔ occurs sub s).
Proof.
  intros Hsub. induction s as [|c s IH]; simpl; [done|].
  destruct (Py.isspace c) eqn:Hc; [|done].
  rewrite IH, occurs_cons.
  split; [by right|]. intros [H|H]; [|done].
  destruct sub as [|c' sub]; [done|]. simpl in *.
  destruct (decide (c' = c)) as [->|]; [|done]. by rewrite Hc in Hsub.
Qed.

Lemma rstrip_startswith p s :
  ends_nonspace p = true →
  Py.startswith p (Py.rstrip s) = Py.startswith p s.
Proof.
  revert s. induction p as [|a p IH]; intros s Hp; [done|].
  destruct s as [|c s]; [done|]. simpl.
  destruct p as [|b p].
  - simpl in Hp.
    destruct (Py.rstrip s) as [|c' r]; simpl.
    + destruct (Py.isspace c) eqn:Hc; simpl.
      * destruct (decide (a = c)) as [->|]; [|done]. by rewrite Hc in Hp.
      * by destruct (decide (a = c)).
    + by destruct (decide (a = c)).
  - specialize (IH s Hp).
    destruct (Py.rstrip s) as [|c' r] eqn:Hr.
    + simpl in IH. destruct (Py.isspace c); simpl;
        destruct (decide (a = c)); try done.
    + simpl. by destruct (decide (a = c)).
Qed.

Lemma rstrip_occurs sub s :
  ends_nonspace sub = true → (occurs sub (Py.rstrip s) ↔ occurs sub s).
Proof.
  intros Hsub. induction s as [|c s IH]; [done|].
  rewrite occurs_cons, <- (rstrip_startswith sub (String c s) Hsub), <- IH.
  simpl. destruct (Py.rstrip s) as [|c' r] eqn:Hr.
  - destruct (Py.isspace c).
    + rewrite occurs_nil. destruct sub; [done|]. simpl. split; [done|].
      by intros [?|?].
    + by rewrite occurs_cons.
  - by rewrite occurs_cons.
Qed.

Lemma strip_occurs sub s :
  starts_nonspace sub = true → ends_nonspace sub = true →
  (occurs sub (Py.strip s) ↔ occurs sub s).
Proof.
  intros H1 H2. unfold Py.strip. by rewrite rstrip_occurs, lstrip_occurs.
Qed.

(** The test of [workerProcess] on the stripped output sees the
    missing-table message exactly when the raw output holds it. *)
Lemma missing_table_test out :
  0 ≤ Py.find (Py.strip out) missing_table ↔ occurs missing_table out.
Proof. rewrite find_occurs. by apply strip_occurs. Qed.

End Strings.

(** ** The worker's reading of a dump result *)

(** C3: a worker that holds a job runs pg_dump on it and then: with exit
    code 0 it goes back to [queue.get()] having logged nothing above INFO;
    with a non-zero exit code and "No matching tables were found" in the
    combined output it logs the warning and goes back to [queue.get()];
    with any other non-zero exit code it logs the error and its process
    ends with [exit(1)]. *)
Theorem C3_worker_classifies_dump e a i s j :
  workers s !! i = Some (WDumping j) →
  let rc := (shell e (table_cmd a j)).1 in
  let out := (shell e (table_cmd a j)).2 in
  let s' := step e a (AWorker i) s in
  (rc = 0 →
     workers s' !! i = Some WWaiting ∧
     ∃ l, log s' = log s ++ l ∧ Forall (λ r, lvl r = INFO) l) ∧
  (rc ≠ 0 → occurs missing_table out →
     workers s' !! i = Some WWaiting ∧
     ∃ l, log s' = log s ++ l ++
       [warning "Table %s could not be found [%s]" [VStr j.2; VStr j.1]]) ∧
  (rc ≠ 0 → ¬ occurs missing_table out →
     workers s' !! i = Some (WExited 1) ∧
     allWorkersAlive (workers s') = false ∧
     ∃ l, log s' = log s ++ l ++
       [error "Failed to dump contents of table %s [%s]" [VStr j.2; VStr j.1]]).
Proof.
  intros Hw rc out s'.
  assert (i < length (workers s))%nat as Hi by (by eapply lookup_lt_Some).
  subst s'. unfold step. unfold worker_step. rewrite Hw.
  unfold dump_table, shell_exec_with_output. fold rc. fold out.
  split_and!.
  - intros Hrc. rewrite bool_decide_eq_false_2 by (by intros ?). simpl.
    split; [by apply list_lookup_insert_eq|].
    eexists. split; [done|]. by repeat constructor.
  - intros Hrc Hocc. rewrite bool_decide_eq_true_2 by done.
    rewrite bool_decide_eq_true_2 by (by apply missing_table_test). simpl.
    split; [by apply list_lookup_insert_eq|]. by eexists (_ :: _ :: _ :: []).
  - intros Hrc Hocc. rewrite bool_decide_eq_true_2 by done.
    rewrite bool_decide_eq_false_2 by (by rewrite missing_table_test). simpl.
    split_and!; [by apply list_lookup_insert_eq| |by eexists (_ :: _ :: _ :: [])].
    apply not_true_is_false. rewrite allWorkersAlive_spec. intros Hall.
    specialize (Hall (WExited 1)). simpl in Hall.
    assert (false = true) as Hf; [|done]. apply Hall.
    apply list_elem_of_lookup. exists i. by apply list_lookup_insert_eq.
Qed.

(** ** The binaries directory *)

Section Bindir.
Context (e : Env) (a : Args).


Lemma schema_cmd_pg_dump db :
  ∃ rest, schema_cmd a db = pg_dump_path a +:+ " " +:+ rest.
Proof. by eexists. Qed.

Lemma table_cmd_pg_dump j :
  ∃ rest, table_cmd a j = pg_dump_path a +:+ " " +:+ rest.
Proof. by eexists. Qed.


End Bindir.


(** ** What the liveness check sees *)

Section Detection.
Context (e : Env) (a : Args).

(** A worker that is gone stays gone. *)
Lemma dead_stays_dead act s i c :
  workers s !! i = Some (WExited c) →
  workers (step e a act s) !! i = Some (WExited c).
Proof.
  intros Hi. unfold step.
  assert (i < length (workers s))%nat as Hlt by (by eapply lookup_lt_Some).
  destruct act as [|k|k n|].
  - destruct s as [m ws bf q l tr]. unfold main_step, goto. simpl in *.
    destruct m; repeat case_match; simpl; try done.
    all: unfold launchWorkers; by apply lookup_app_l_Some.
  - unfold worker_step.
    destruct (workers s !! k) as [[| |j|c']|] eqn:Hk; simpl; try done.
    + rewrite list_lookup_insert_ne; [done|]. intros ->. congruence.
    + destruct (pipe s); simpl; [done|].
      rewrite list_lookup_insert_ne; [done|]. intros ->. congruence.
    + destruct (dump_table e a j) as [[l w] rc]. simpl.
      rewrite list_lookup_insert_ne; [done|]. intros ->. congruence.
  - unfold kill_step.
    destruct (workers s !! k) as [w|] eqn:Hk; [|done].
    destruct (is_alive w) eqn:Hw; [|done]. simpl.
    rewrite list_lookup_insert_ne; [done|]. intros ->.
    rewrite Hi in Hk. injection Hk as <-. done.
  - unfold feed_step. by destruct (buffer s).
Qed.

(** When the supervisor gets to its liveness check with a worker gone, the
    run ends with exit code 1. *)
Lemma dead_worker_seen s i k c :
  main s = PAlive k → workers s !! i = Some (WExited c) →
  run_exit_code (step e a AMain s) = Some 1.
Proof.
  intros Hm Hi. unfold step. unfold main_step. rewrite Hm.
  assert (allWorkersAlive (workers s) = false) as ->; [|done].
  apply not_true_is_false. rewrite allWorkersAlive_spec. intros Hall.
  specialize (Hall (WExited c)). simpl in Hall.
  assert (false = true) as Hf; [|done]. apply Hall.
  by eapply list_elem_of_lookup_2.
Qed.

End Detection.

(** ** A failure the supervisor misses *)

(** C1: one database, one table, one worker.  The dump of the table ends
    with exit code 1 and an output without the missing-table message: the
    worker logs the error and ends with [exit(1)].  The job had been taken
    off the queue, so the supervisor's next test of [queue.empty()] ends the
    drain loop without a liveness check, and the run logs
    "Done. No errors encountered" and ends with exit code 0. *)
Theorem C1_hard_failure_on_drained_queue_exits_0 :
  let s := run damaged_env (demo_args 1) damaged_sched in
  dumps (trace s) = [(0%nat, ("db1", "public.t"), 1)] ∧
  workers s = [WExited 1] ∧
  error "Failed to dump contents of table %s [%s]" [VStr "public.t"; VStr "db1"]
    ∈ log s ∧
  last (log s) = Some (info "Done. No errors encountered" []) ∧
  main s = PDone Returned ∧
  run_exit_code s = Some 0.
Proof.
  vm_compute. split_and!; try done.
  apply list_elem_of_In. simpl. do 12 right. by left.
Qed.

(** C5: one database, two tables, two workers, healthy dumps.  Worker 0 is
    killed while both jobs are on the queue and the supervisor sleeps in
    the drain loop; worker 1 takes both jobs before the supervisor's next
    test of [queue.empty()], which then ends the loop: the dead worker is
    never looked at and the run ends with exit code 0. *)
Theorem C5_dead_worker_unnoticed_when_queue_drains :
  let s0 := run healthy_env (demo_args 2) kill_sched_before in
  let s := run healthy_env (demo_args 2) (kill_sched_before ++ kill_sched_after) in
  main s0 = PSleep 0 ∧
  queue s0 = [("db1", "public.big"); ("db1", "public.small")] ∧
  workers s0 = [WExited (-9); WStarting] ∧
  allWorkersAlive (workers s0) = false ∧
  queue s = [] ∧
  allWorkersAlive (workers s) = false ∧
  main s = PDone Returned ∧
  run_exit_code s = Some 0.
Proof. vm_compute. by split_and!. Qed.

(** ** No job goes back on the queue *)

Section Requeue.
Context (e : Env) (a : Args).

Lemma occ_app j l1 l2 : occ j (l1 ++ l2) = (occ j l1 + occ j l2)%nat.
Proof. apply count_occ_app. Qed.

Lemma occ_prefix j l1 l2 : l1 `prefix_of` l2 → (occ j l1 ≤ occ j l2)%nat.
Proof. intros [k ->]. rewrite occ_app. lia. Qed.

Lemma occ_NoDup l : NoDup l ↔ ∀ j, (occ j l ≤ 1)%nat.
Proof. rewrite NoDup_ListNoDup. apply NoDup_count_occ. Qed.

(** Replacing the state of one worker moves [inflight] by that worker. *)
Lemma inflight_insert j ws i w w' :
  ws !! i = Some w →
  (inflight j (<[i:=w']> ws) + (if decide (w = WDumping j) then 1 else 0)
   = inflight j ws + (if decide (w' = WDumping j) then 1 else 0))%nat.
Proof.
  unfold inflight. revert i. induction ws as [|x ws IH]; intros i Hi; [done|].
  destruct i as [|i]; simpl in *.
  - injection Hi as ->. rewrite !filter_cons.
    destruct (decide (w = WDumping j)), (decide (w' = WDumping j)); simpl; lia.
  - specialize (IH i Hi). rewrite !filter_cons.
    destruct (decide (x = WDumping j)); simpl; lia.
Qed.

(** A dump is finished, or under way, only for a job that was taken, as
    often as it was taken. *)
Lemma dump_once_step act s :
  (∀ j, (occ j (dumped s) + inflight j (workers s) ≤ occ j (taken s))%nat) →
  ∀ j, (occ j (dumped (step e a act s)) + inflight j (workers (step e a act s))
        ≤ occ j (taken (step e a act s)))%nat.
Proof.
  intros H j. specialize (H j). unfold step.
  destruct s as [m ws bf q l tr]. unfold taken, dumped in *. simpl in *.
  destruct act as [|i|i n|].
  - unfold main_step, goto. simpl.
    destruct m as [|dbs n|db dbs n|db todo c dbs n|k|k|k|r]; simpl;
      repeat case_match; simpl;
      rewrite ?gets_app, ?dumps_app, ?app_nil_r; simpl;
      rewrite ?app_nil_r; try done.
    all: unfold launchWorkers, inflight in *; rewrite filter_app, length_app.
    all: assert (filter (λ w, w = WDumping j)
                   (replicate (Z.to_nat (jobs a)) WStarting) = []) as ->
      by (induction (Z.to_nat (jobs a)) as [|k IH]; [done|]; simpl;
          by rewrite filter_cons_False).
    all: simpl; lia.
  - unfold worker_step. simpl.
    destruct (ws !! i) as [[| |j0|c]|] eqn:Hi; simpl; try done.
    + pose proof (inflight_insert j ws i _ WWaiting Hi) as Hins.
      destruct (decide (WStarting = WDumping j)); [done|].
      destruct (decide (WWaiting = WDumping j)); [done|]. lia.
    + destruct q as [|j0 q]; simpl; [done|].
      rewrite gets_app, dumps_app, !fmap_app, !occ_app. simpl.
      pose proof (inflight_insert j ws i _ (WDumping j0) Hi) as Hins.
      destruct (decide (WWaiting = WDumping j)); [done|].
      destruct (decide (WDumping j0 = WDumping j)) as [Heq|Hne];
        destruct (decide (j0 = j)) as [Hj|Hj]; try congruence; lia.
    + destruct (dump_table e a j0) as [[l' w] rc] eqn:Hd. simpl.
      rewrite gets_app, dumps_app, !fmap_app, !occ_app. simpl.
      pose proof (inflight_insert j ws i _ w Hi) as Hins.
      assert (w ≠ WDumping j) as Hw.
      { unfold dump_table in Hd. destruct (shell_exec_with_output _ _) as [[? ?] ?].
        repeat case_match; injection Hd as <- <- <-; done. }
      destruct (decide (w = WDumping j)); [done|].
      destruct (decide (WDumping j0 = WDumping j)) as [Heq|Hne];
        destruct (decide (j0 = j)) as [Hj|Hj]; try congruence; lia.
  - unfold kill_step. simpl.
    destruct (ws !! i) as [w|] eqn:Hi; [|done].
    destruct (is_alive w); [|done]. simpl.
    pose proof (inflight_insert j ws i _ (WExited (-9)) Hi) as Hins.
    destruct (decide (WExited (-9) = WDumping j)); [done|].
    destruct (decide (w = WDumping j)); lia.
  - unfold feed_step. simpl. by destruct bf.
Qed.

Lemma dump_once_run sched j :
  (occ j (dumped (run e a sched)) + inflight j (workers (run e a sched))
   ≤ occ j (taken (run e a sched)))%nat.
Proof.
  revert j.
  apply (run_invariant e a (λ s, ∀ j,
    (occ j (dumped s) + inflight j (workers s) ≤ occ j (taken s))%nat)).
  - apply dump_once_step.
  - intros j. simpl. unfold occ, inflight. simpl. lia.
Qed.

(** Only the supervisor adds to the queue. *)
Lemma queue_not_main act s :
  act ≠ AMain →
  queue (step e a act s) `suffix_of` queue s ∧
  puts (trace (step e a act s)) = puts (trace s).
Proof.
  intros Hne. unfold step, queue.
  destruct s as [m ws bf q l tr]. simpl.
  destruct act as [|i|i n|]; [done| | |].
  - unfold worker_step. simpl.
    destruct (ws !! i) as [[| |j0|c]|]; simpl; try done.
    + destruct q as [|j0 q]; simpl; [done|].
      rewrite puts_app. simpl. rewrite app_nil_r.
      split; [|done]. by apply suffix_cons_r.
    + destruct (dump_table e a j0) as [[l' w] rc]. simpl.
      rewrite puts_app. simpl. by rewrite app_nil_r.
  - unfold kill_step. simpl.
    destruct (ws !! i) as [w|]; [|done]. by destruct (is_alive w).
  - unfold feed_step. simpl. destruct bf as [|j0 b]; simpl; [done|].
    by rewrite <- app_assoc.
Qed.

Lemma puts_listed dbs sched :
  startup e a = inr dbs → puts (trace (run e a sched)) `prefix_of` all_jobs e dbs.
Proof.
  intros Hs. destruct (seq_inv_run e a dbs sched Hs) as [->|[Hinv _]].
  - apply prefix_nil.
  - apply seq_inv_verified in Hinv as (done & rest & -> & _ & Hp & _).
    etrans; [done|]. rewrite all_jobs_app. by apply prefix_app_r.
Qed.

End Requeue.

(** C8: a step of a worker, the death of one, or a write of the queue's
    feeder thread never adds to the queue;
    what the supervisor has put is a prefix of the tables it listed; the
    jobs put are exactly the jobs taken followed by the jobs still queued;
    and a dump has run or is running only for a job that was taken, once
    per take.  So a job is dumped at most as often as it was taken, taken
    at most as often as it was put, put at most as often as it was listed:
    with no table listed twice, no job is taken twice or dumped twice. *)
Theorem C8_job_never_requeued e a dbs sched act :
  startup e a = inr dbs →
  let s := run e a sched in
  (act ≠ AMain →
     queue (step e a act s) `suffix_of` queue s ∧
     puts (trace (step e a act s)) = puts (trace s)) ∧
  puts (trace s) `prefix_of` all_jobs e dbs ∧
  puts (trace s) = taken s ++ queue s ∧
  (∀ j, (occ j (dumped s) + inflight j (workers s) ≤ occ j (taken s))%nat ∧
        (occ j (taken s) + occ j (queue s) ≤ occ j (all_jobs e dbs))%nat) ∧
  (NoDup (all_jobs e dbs) → NoDup (taken s ++ queue s) ∧ NoDup (dumped s)).
Proof.
  intros Hs s.
  pose proof (puts_listed e a dbs sched Hs) as Hpre.
  pose proof (fifo_ok_run e a sched) as Hfifo. unfold fifo_ok in Hfifo.
  fold s in Hpre, Hfifo. fold (taken s) in Hfifo.
  assert (∀ j, (occ j (taken s) + occ j (queue s) ≤ occ j (all_jobs e dbs))%nat) as Hocc.
  { intros j. rewrite <- occ_app, <- Hfifo. by apply occ_prefix. }
  split_and!; try done.
  - by apply queue_not_main.
  - intros j. split; [apply dump_once_run | apply Hocc].
  - intros Hnd. split.
    + rewrite <- Hfifo. destruct Hpre as [k Hk]. rewrite Hk in Hnd.
      by apply NoDup_app in Hnd as (? & _ & _).
    + apply occ_NoDup. intros j. rewrite occ_NoDup in Hnd.
      pose proof (dump_once_run e a sched j). fold s in H.
      specialize (Hocc j). specialize (Hnd j). lia.
Qed.

(** ** Runs without a crash *)

Section HealthyBasics.
Context (e : Env) (a : Args).

Lemma dump_table_state j :
  (dump_table e a j).1.2 = WWaiting ∨ (dump_table e a j).1.2 = WExited 1.
Proof.
  unfold dump_table. destruct (shell_exec_with_output _ _) as [[rc out] l].
  repeat case_bool_decide; simpl; auto.
Qed.



Lemma no_kill_Forall sched :
  no_kill sched = true → Forall (λ act, is_kill act = false) sched.
Proof.
  unfold no_kill. rewrite forallb_forall, Forall_forall.
  intros H act Hin. apply list_elem_of_In, H in Hin. by apply negb_true_iff.
Qed.


End HealthyBasics.

Section Healthy.
Context (e : Env) (a : Args) (dbs : list string).
Context (Hs : startup e a = inr dbs).
Context (Hok : forallb (db_ok e a) dbs = true).
Context (Hne : all_jobs e dbs ≠ []).
Context (Hhard : no_hard_failure e a dbs = true).










End Healthy.

(** ** Draining the queue *)

Section Times.

Lemma times_cons act x sched :
  times act (x :: sched)
  = ((if decide (x = act) then 1 else 0) + times act sched)%nat.
Proof. unfold times. rewrite filter_cons. by destruct (decide (x = act)). Qed.


Lemma times_replicate act n : times act (replicate n act) = n.
Proof.
  induction n as [|n IH]; [done|]. simpl. rewrite times_cons, IH.
  by destruct (decide (act = act)).
Qed.

End Times.


(** ** Fair schedules *)

Section Fair.




End Fair.

(** ** Who takes the jobs *)

Section Takers.
Context (e : Env) (a : Args).



End Takers.

(** C2: one database, two healthy tables, two workers; no dump fails and
    no worker is killed.  The supervisor puts both jobs and reaches
    [while not queue.empty()] before the feeder thread of the queue has
    written anything to the pipe: [empty()] polls the pipe only, so the
    drain loop is not entered, the run logs "Done. No errors encountered"
    and ends with exit code 0, with both jobs still in the queue and none
    of them taken off by a worker. *)
Theorem C2_supervisor_returns_before_any_job_is_taken :
  let s := run healthy_env (demo_args 2) early_sched in
  startup healthy_env (demo_args 2) = inr ["db1"] ∧
  no_hard_failure healthy_env (demo_args 2) ["db1"] = true ∧
  no_kill early_sched = true ∧
  puts (trace s) = [("db1", "public.big"); ("db1", "public.small")] ∧
  workers s = [WStarting; WStarting] ∧
  allWorkersAlive (workers s) = true ∧
  gets (trace s) = [] ∧
  dumps (trace s) = [] ∧
  pipe s = [] ∧
  queue s = [("db1", "public.big"); ("db1", "public.small")] ∧
  last (log s) = Some (info "Done. No errors encountered" []) ∧
  main s = PDone Returned ∧
  run_exit_code s = Some 0.
Proof. vm_compute. by split_and!. Qed.

(** ** The theorems at concrete runs *)

Lemma C3_witness :
  workers dumping_state !! 0%nat = Some (WDumping ("db1", "public.t")) ∧
  ((shell damaged_env (table_cmd (demo_args 1) ("db1", "public.t"))).1 ≠ 0 →
   ¬ occurs missing_table
       (shell damaged_env (table_cmd (demo_args 1) ("db1", "public.t"))).2 →
   workers (step damaged_env (demo_args 1) (AWorker 0) dumping_state) !! 0%nat
   = Some (WExited 1)).
Proof.
  split; [reflexivity|].
  intros Hrc Hocc.
  exact (proj1 (proj2 (proj2 (C3_worker_classifies_dump damaged_env (demo_args 1)
           0%nat dumping_state ("db1", "public.t") eq_refl)) Hrc Hocc)).
Defined.

Lemma C4_witness :
  startup broken_schema_env (demo_args 1) = inr ["db1"; "db2"] ∧
  schema_ok broken_schema_env (demo_args 1) "db2" = false ∧
  (main_left broken_schema_env (demo_args 1) PStart
   ≤ times AMain (replicate 6 AMain))%nat ∧
  run_exit_code (run broken_schema_env (demo_args 1) (replicate 6 AMain)) = Some 1.
Proof.
  assert (main_left broken_schema_env (demo_args 1) PStart
          ≤ times AMain (replicate 6 AMain))%nat as Hle by (vm_compute; lia).
  split_and!; [reflexivity | reflexivity | exact Hle |].
  exact (proj2 (proj2 (proj2 (proj2
           (C4_schema_check_gates_enqueue broken_schema_env (demo_args 1)
              ["db1"; "db2"] (replicate 6 AMain) eq_refl)
           ["db1"] "db2" [] eq_refl eq_refl))) Hle).
Defined.

Lemma C6_witness :
  startup empty_env (demo_args 1) = inr ["db1"] ∧
  (∀ db, db ∈ ["db1"] → schema_ok empty_env (demo_args 1) db = true) ∧
  (∀ db, db ∈ ["db1"] → list_tables empty_env db = inr []) ∧
  run_exit_code (run empty_env (demo_args 1) (replicate 5 AMain)) = Some 1.
Proof.
  assert (∀ db, db ∈ ["db1"] → schema_ok empty_env (demo_args 1) db = true) as H1
    by (intros db _; reflexivity).
  assert (∀ db, db ∈ ["db1"] → list_tables empty_env db = inr []) as H2
    by (intros db _; reflexivity).
  split_and!; [reflexivity | exact H1 | exact H2 |].
  apply (C6_no_tables_is_fatal empty_env (demo_args 1) ["db1"]
           (replicate 5 AMain) eq_refl H1 H2).
  vm_compute. lia.
Defined.

Lemma C7_witness :
  dbname nope_args = Some "nope" ∧ Py.truthy "nope" = true ∧
  (∀ dbs, list_databases healthy_env = inr dbs → "nope" ∉ dbs) ∧
  trace (run healthy_env nope_args [AMain; AWorker 0; AMain]) = [] ∧
  run_exit_code (run healthy_env nope_args [AMain; AWorker 0; AMain]) = Some 1.
Proof.
  assert (∀ dbs, list_databases healthy_env = inr dbs → "nope" ∉ dbs) as H.
  { intros dbs [= <-]. compute_done. }
  split_and!; [reflexivity | reflexivity | exact H | |].
  - exact (proj1 (C7_unknown_database_aborts_before_work healthy_env nope_args
             "nope" [AMain; AWorker 0; AMain] eq_refl eq_refl H)).
  - apply (C7_unknown_database_aborts_before_work healthy_env nope_args
             "nope" [AMain; AWorker 0; AMain] eq_refl eq_refl H).
    compute_done.
Defined.

Lemma C8_witness :
  startup healthy_env (demo_args 2) = inr ["db1"] ∧
  puts (trace (run healthy_env (demo_args 2) kill_sched_before))
  = taken (run healthy_env (demo_args 2) kill_sched_before)
    ++ queue (run healthy_env (demo_args 2) kill_sched_before).
Proof.
  split; [reflexivity|].
  exact (proj1 (proj2 (proj2 (C8_job_never_requeued healthy_env (demo_args 2)
           ["db1"] kill_sched_before (AWorker 1) eq_refl)))).
Defined.


Lemma C10_witness :
  jobs (demo_args 0) ≤ 0 ∧
  workers (run healthy_env (demo_args 0) kill_sched_before) = [] ∧
  allWorkersAlive (workers (run healthy_env (demo_args 0) kill_sched_before)) = true.
Proof.
  assert (jobs (demo_args 0) ≤ 0) as Hj by (simpl; lia).
  split; [exact Hj|].
  pose proof (proj2 (proj2 C10_zero_workers_pass_liveness) healthy_env
                (demo_args 0) kill_sched_before Hj) as (H1 & H2 & _).
  exact (conj H1 H2).
Defined.

(** * Further properties of the script *)

(** ** Progress reporting *)

Section Progress.
Context (e : Env) (a : Args).

Lemma filter_take_nil {A} (P : A → Prop) `{∀ x, Decision (P x)} n (l : list A) :
  filter P l = [] → filter P (take n l) = [].
Proof.
  revert n. induction l as [|x l IH]; intros n; [by destruct n|].
  destruct n as [|n]; [done|]. simpl. rewrite !filter_cons.
  destruct (decide (P x)); [done|]. apply IH.
Qed.

Lemma kill_step_trace i n s : trace (kill_step e a i n s) = trace s.
Proof.
  unfold kill_step. destruct (workers s !! i) as [w|]; [|done].
  by destruct (is_alive w).
Qed.

Lemma progress_lines_app l1 l2 :
  progress_lines (l1 ++ l2) = progress_lines l1 ++ progress_lines l2.
Proof. apply filter_app. Qed.

Lemma progress_lines_dump j : progress_lines (dump_table e a j).1.1 = [].
Proof.
  unfold dump_table, shell_exec_with_output.
  repeat case_bool_decide; reflexivity.
Qed.

Lemma progress_lines_cut w n : progress_lines (cut_log e a w n) = [].
Proof.
  destruct w as [| |j|c]; simpl; try done.
  apply filter_take_nil, progress_lines_dump.
Qed.

Lemma progress_lines_kill k n s :
  progress_lines (log (kill_step e a k n s)) = progress_lines (log s).
Proof.
  unfold kill_step. destruct (workers s !! k) as [w|]; [|done].
  destruct (is_alive w); [|done]. simpl.
  by rewrite progress_lines_app, progress_lines_cut, app_nil_r.
Qed.

Lemma feed_step_log s : log (feed_step s) = log s.
Proof. unfold feed_step. by destruct (buffer s). Qed.

Lemma progress_lines_startup : progress_lines (startup_log e a) = [].
Proof.
  unfold startup_log. destruct (negb _); [reflexivity|].
  destruct (list_databases e); reflexivity.
Qed.

Lemma progress_tick i n :
  0 ≤ i → i `mod` 5 = 0 → n = i `div` 60 →
  (if bool_decide ((i + 5) `mod` 60 = 0) then n + 1 else n) = (i + 5) `div` 60.
Proof.
  intros Hi H5 ->. case_bool_decide as H60; Z.div_mod_to_equations; lia.
Qed.

Lemma progress_ok_step act s : progress_ok s → progress_ok (step e a act s).
Proof.
  intros H. unfold step.
  destruct act as [|k|k n|].
  - destruct s as [m ws bf q l tr]. unfold progress_ok, main_step, goto in *.
    simpl in *.
    destruct m as [|dl n|db dl n|db todo c dl n|i|i|i|r]; simpl in *.
    + destruct (startup e a); simpl; [done|].
      change (info "Args: %s, unknown_args: %s" _ :: _ ++ ?x)
        with (startup_log e a ++ x).
      rewrite !progress_lines_app, progress_lines_startup, H. reflexivity.
    + destruct dl as [|db dl]; simpl.
      * case_bool_decide; simpl; [done|].
        rewrite progress_lines_app, H. simpl. split_and!; done.
      * unfold shell_exec_with_output.
        repeat case_bool_decide; simpl; try done;
          rewrite progress_lines_app, H; reflexivity.
    + destruct (list_tables e db); simpl; [done|].
      rewrite progress_lines_app, H. reflexivity.
    + destruct todo; simpl; [|done].
      rewrite progress_lines_app, H. reflexivity.
    + case_bool_decide; simpl; [done|]. by rewrite app_nil_r.
    + destruct (allWorkersAlive ws); simpl; [|done]. by rewrite app_nil_r.
    + destruct H as (Hi & H5 & Hn). split_and!.
      * lia.
      * Z.div_mod_to_equations; lia.
      * rewrite progress_lines_app, len_app, Hn.
        rewrite <- (progress_tick i (i `div` 60)) by done.
        case_bool_decide; simpl; unfold len; simpl; lia.
    + done.
  - unfold progress_ok in *. rewrite worker_step_main.
    assert (progress_lines (log (worker_step e a k s)) = progress_lines (log s)) as ->;
      [|done].
    unfold worker_step. destruct (workers s !! k) as [[| |j|c]|]; simpl; try done.
    + rewrite progress_lines_app. simpl. by rewrite app_nil_r.
    + by destruct (pipe s).
    + pose proof (progress_lines_dump j) as Hj.
      destruct (dump_table e a j) as [[l' w] rc]. simpl in *.
      by rewrite progress_lines_app, Hj, app_nil_r.
  - unfold progress_ok in *. by rewrite kill_step_main, progress_lines_kill.
  - unfold progress_ok in *. by rewrite feed_step_main, feed_step_log.
Qed.

Lemma progress_ok_run sched : progress_ok (run e a sched).
Proof. apply run_invariant; [apply progress_ok_step | done]. Qed.

End Progress.

(** X1: while the supervisor is in the drain loop its counter [i] is a
    non-negative multiple of 5 (five per sleep), and the log holds exactly
    [i // 60] progress lines: one is written at every twelfth sleep and at
    no other time. *)
Theorem X1_progress_line_every_twelfth_sleep e a sched i :
  loop_counter (main (run e a sched)) = Some i →
  0 ≤ i ∧ i `mod` 5 = 0 ∧
  len (progress_lines (log (run e a sched))) = i `div` 60.
Proof.
  intros Hi. pose proof (progress_ok_run e a sched) as H.
  unfold progress_ok in H.
  destruct (main (run e a sched)); simpl in Hi; try done;
    by injection Hi as <-.
Qed.

(** ** How the supervisor ends *)

Section Ending.
Context (e : Env) (a : Args).

(** The liveness check fails exactly when some worker is gone. *)
Lemma not_alive_dead ws :
  allWorkersAlive ws = false ↔ ∃ i c, ws !! i = Some (WExited c).
Proof.
  induction ws as [|w ws IH]; simpl.
  - split; [done|]. by intros (i & c & H).
  - destruct (is_alive w) eqn:Hw; simpl.
    + rewrite IH. split.
      * intros (i & c & H). by exists (S i), c.
      * intros ([|i] & c & H); simpl in H; [|by exists i, c].
        injection H as ->. done.
    + split; [|done]. intros _. destruct w; try done. by exists 0%nat, code.
Qed.

Lemma not_alive_step act s :
  allWorkersAlive (workers s) = false →
  allWorkersAlive (workers (step e a act s)) = false.
Proof.
  rewrite !not_alive_dead. intros (i & c & H). exists i, c.
  by apply dead_stays_dead.
Qed.

Lemma ending_ok_step act s : ending_ok s → ending_ok (step e a act s).
Proof.
  intros H. destruct (decide (act = AMain)) as [->|Hne].
  - destruct s as [m ws bf q l tr]. unfold ending_ok, step, main_step, goto in *.
    simpl in *.
    destruct m as [|dl n|db dl n|db todo c dl n|i|i|i|r]; simpl; try done.
    + by destruct (startup e a).
    + destruct dl; simpl; [by case_bool_decide|].
      unfold shell_exec_with_output. by repeat case_bool_decide.
    + by destruct (list_tables e db).
    + by destruct todo.
    + by case_bool_decide.
    + by destruct (allWorkersAlive ws) eqn:Ha.
  - unfold ending_ok in *. rewrite step_not_main by done.
    destruct (main s) as [| | | | | | |[|msg|c]]; try done.
    destruct H as [-> Ha]. split; [done|]. by apply not_alive_step.
Qed.

Lemma ending_ok_run sched : ending_ok (run e a sched).
Proof. apply run_invariant; [apply ending_ok_step | done]. Qed.

(** The supervisor does not touch the pipe, and the pipe gets empty only by
    a worker. *)
Lemma main_step_pipe s : pipe (main_step e a s) = pipe s.
Proof.
  destruct s as [m ws bf q l tr]. unfold main_step, goto. simpl.
  destruct m as [|dl n|db dl n|db todo c dl n|i|i|i|r]; simpl; try done.
  - by destruct (startup e a).
  - destruct dl; simpl; [by case_bool_decide|].
    unfold shell_exec_with_output. by repeat case_bool_decide.
  - by destruct (list_tables e db).
  - by destruct todo.
  - by case_bool_decide.
  - by destruct (allWorkersAlive ws).
Qed.

(** The supervisor returns only from a test that finds the pipe empty. *)
Lemma return_needs_empty_pipe s :
  is_done s = false → main (main_step e a s) = PDone Returned → pipe s = [].
Proof.
  destruct s as [m ws bf q l tr]. unfold main_step, goto, is_done. simpl.
  destruct m as [|dl n|db dl n|db todo c dl n|i|i|i|r]; simpl; try done.
  - by destruct (startup e a).
  - destruct dl; simpl; [by case_bool_decide|].
    unfold shell_exec_with_output. by repeat case_bool_decide.
  - by destruct (list_tables e db).
  - by destruct todo.
  - by case_bool_decide.
  - by destruct (allWorkersAlive ws).
Qed.

(** With every worker gone only the supervisor and the feeder thread
    move. *)
Lemma all_dead_step act s :
  Forall (λ w, is_alive w = false) (workers s) → act ≠ AMain →
  workers (step e a act s) = workers s ∧
  (pipe s ≠ [] → pipe (step e a act s) ≠ []).
Proof.
  intros Hall Hne. unfold step. rewrite Forall_forall in Hall.
  destruct act as [|k|k n|]; [done|..].
  - unfold worker_step. destruct (workers s !! k) as [w|] eqn:Hk; [|done].
    apply list_elem_of_lookup_2, Hall in Hk. by destruct w.
  - unfold kill_step. destruct (workers s !! k) as [w|] eqn:Hk; [|done].
    apply list_elem_of_lookup_2, Hall in Hk. by rewrite Hk.
  - unfold feed_step. destruct (buffer s); [done|]. simpl. split; [done|].
    intros _. by destruct (pipe s).
Qed.

Lemma all_dead_not_alive ws :
  ws ≠ [] → Forall (λ w, is_alive w = false) ws → allWorkersAlive ws = false.
Proof.
  intros Hne Hall. destruct ws as [|w ws]; [done|].
  apply Forall_cons in Hall as [Hw _]. simpl. by rewrite Hw.
Qed.

Lemma all_dead_exec sched s :
  workers s ≠ [] → Forall (λ w, is_alive w = false) (workers s) →
  pipe s ≠ [] → check_left (main s) ≠ 0%nat →
  (check_left (main s) ≤ times AMain sched)%nat →
  main (exec e a sched s) = PDone (Exit 1).
Proof.
  revert s. induction sched as [|act sched IH]; intros s Hne Hall Hq Hin Hle.
  - unfold times in Hle. simpl in Hle. lia.
  - simpl. rewrite times_cons in Hle.
    destruct (decide (act = AMain)) as [->|Hact].
    + pose proof (all_dead_not_alive _ Hne Hall) as Ha.
      destruct s as [m ws bf q l tr]. unfold step, main_step, goto. simpl in *.
      destruct m as [|dl n|db dl n|db todo c dl n|i|i|i|r]; simpl in *; try done.
      * rewrite bool_decide_eq_false_2 by done. apply IH; simpl; try done. lia.
      * rewrite Ha. simpl. by rewrite exec_done.
      * apply IH; simpl; try done. lia.
    + destruct (all_dead_step act s Hall Hact) as [Hw Hp].
      apply IH; rewrite ?Hw, ?step_not_main by done; try done;
        try (by apply Hp); lia.
Qed.

Lemma alive_check_exec sched s i k c :
  main s = PAlive k → workers s !! i = Some (WExited c) → AMain ∈ sched →
  main (exec e a sched s) = PDone (Exit 1).
Proof.
  revert s. induction sched as [|act sched IH]; intros s Hm Hi Hin.
  - by apply elem_of_nil in Hin.
  - simpl. destruct (decide (act = AMain)) as [->|Hact].
    + pose proof (dead_worker_seen e a s i k c Hm Hi) as Hx.
      unfold run_exit_code in Hx.
      destruct (main (step e a AMain s)) as [| | | | | | |r] eqn:Hr; try done.
      rewrite exec_done by (unfold is_done; by rewrite Hr).
      rewrite Hr. clear IH. unfold step in Hr.
      unfold main_step in Hr. rewrite Hm in Hr.
      destruct (allWorkersAlive (workers s)); simpl in Hr; [done|].
      by injection Hr as <-.
    + apply IH.
      * by rewrite step_not_main.
      * by apply dead_stays_dead.
      * apply elem_of_cons in Hin as [Heq|Hin]; [by subst|done].
Qed.


End Ending.

Section NoWorker.
Context (e : Env) (a : Args) (dbs : list string).
Context (Hs : startup e a = inr dbs).
Context (Hok : forallb (db_ok e a) dbs = true).
Context (Hne : all_jobs e dbs ≠ []).
Context (Hj : jobs a ≤ 0).

Lemma no_worker_ending sched r :
  main (run e a sched) = PDone r → r = Returned.
Proof using All.
  intros Hm. destruct (idle_inv_run e a Hj sched) as (_ & _ & Hx).
  destruct (seq_inv_run e a dbs sched Hs) as [Hinit|[Hinv _]].
  { by rewrite Hinit in Hm. }
  rewrite Hm in Hinv.
  inversion Hinv as [| | | p Hp Hf' Hne' Hp' Hj'
                    | dn db rest msg Hd Hf' Hb Hmsg Hp' Hj' | Hf' He' Hp' Hj' ].
  - destruct r as [|msg|c]; [done|done|by destruct (Hx c)].
  - subst dbs. rewrite forallb_app in Hok. simpl in Hok. rewrite Hb in Hok.
    by rewrite andb_false_r in Hok.
  - done.
Qed.

Lemma no_worker_stuck sched more :
  pipe (run e a sched) ≠ [] → is_done (run e a sched) = false →
  pipe (run e a (sched ++ more)) ≠ [] ∧ is_done (run e a (sched ++ more)) = false.
Proof using All.
  intros Hp Hd. induction more as [|act more [IHp IHd]] using rev_ind.
  { by rewrite app_nil_r. }
  rewrite app_assoc, run_snoc.
  destruct (idle_inv_run e a Hj (sched ++ more)) as (Hw & _ & _).
  destruct (decide (act = AMain)) as [->|Hact].
  - simpl. rewrite main_step_pipe. split; [done|].
    destruct (is_done (main_step e a (run e a (sched ++ more)))) eqn:Hd'; [|done].
    exfalso. unfold is_done in Hd'.
    destruct (main (main_step e a (run e a (sched ++ more))))
      as [| | | | | | |r] eqn:Hm; try done.
    assert (r = Returned) as ->.
    { apply (no_worker_ending ((sched ++ more) ++ [AMain])). by rewrite run_snoc. }
    by apply return_needs_empty_pipe in Hm.
  - split.
    + destruct (all_dead_step e a act (run e a (sched ++ more))) as [_ H];
        [by rewrite Hw | done | by apply H].
    + unfold is_done in *. by rewrite step_not_main.
Qed.

End NoWorker.

(** X2: once the supervisor has passed the test of the queue and is at its
    liveness check, a worker that is gone is reported whatever the other
    processes do meanwhile: the supervisor's next statement is [exit(1)]. *)
Theorem X2_dead_worker_reported_at_liveness_check e a s sched i k c :
  main s = PAlive k → workers s !! i = Some (WExited c) → AMain ∈ sched →
  main (exec e a sched s) = PDone (Exit 1) ∧
  run_exit_code (exec e a sched s) = Some 1.
Proof.
  intros Hm Hi Hin. unfold run_exit_code.
  by rewrite (alive_check_exec e a sched s i k c Hm Hi Hin).
Qed.

Lemma X2_witness :
  main (run healthy_env (demo_args 2) alive_check_sched) = PAlive 0 ∧
  workers (run healthy_env (demo_args 2) alive_check_sched) !! 0%nat
  = Some (WExited (-9)) ∧
  AMain ∈ [AWorker 1; AWorker 1; AMain] ∧
  run_exit_code (exec healthy_env (demo_args 2) [AWorker 1; AWorker 1; AMain]
                   (run healthy_env (demo_args 2) alive_check_sched)) = Some 1.
Proof.
  assert (AMain ∈ [AWorker 1; AWorker 1; AMain]) as Hin by compute_done.
  split_and!; [reflexivity | reflexivity | exact Hin |].
  exact (proj2 (X2_dead_worker_reported_at_liveness_check healthy_env
           (demo_args 2) (run healthy_env (demo_args 2) alive_check_sched)
           [AWorker 1; AWorker 1; AMain] 0%nat 0 (-9) eq_refl eq_refl Hin)).
Defined.

(** X3: in the drain loop, with every worker gone and a job in the pipe of
    the queue, so that [queue.empty()] is false, nothing can empty the
    pipe any more and the supervisor ends with [exit(1)] at its next
    liveness check, at most three statements away. *)
Theorem X3_all_workers_gone_ends_run e a s sched k :
  loop_counter (main s) = Some k →
  workers s ≠ [] → Forall (λ w, is_alive w = false) (workers s) →
  pipe s ≠ [] → (3 ≤ times AMain sched)%nat →
  main (exec e a sched s) = PDone (Exit 1) ∧
  run_exit_code (exec e a sched s) = Some 1.
Proof.
  intros Hk Hne Hall Hq Hle. unfold run_exit_code.
  rewrite (all_dead_exec e a sched s); try done.
  - destruct (main s); simpl in *; done.
  - destruct (main s); simpl in *; try done; lia.
Qed.

(** X4: with a worker count of zero or less and at least one table listed,
    no job is ever taken off the queue and the supervisor never fails.
    The run can only end by a return, exit code 0, from a test of the
    queue that finds the pipe empty; once the feeder thread has written a
    job to the pipe and the supervisor has not ended, the run never
    ends. *)
Theorem X4_zero_workers_return_early_or_never e a dbs :
  startup e a = inr dbs → forallb (db_ok e a) dbs = true →
  all_jobs e dbs ≠ [] → jobs a ≤ 0 →
  (∀ sched,
     taken (run e a sched) = [] ∧
     (∀ r, main (run e a sched) = PDone r → r = Returned) ∧
     (∀ c, run_exit_code (run e a sched) = Some c → c = 0)) ∧
  (∀ sched more,
     pipe (run e a sched) ≠ [] → is_done (run e a sched) = false →
     run_exit_code (run e a (sched ++ more)) = None).
Proof.
  intros Hs Hok Hne Hj. split.
  - intros sched. destruct (idle_inv_run e a Hj sched) as (_ & Hg & _).
    pose proof (no_worker_ending e a dbs Hs Hok Hne Hj sched) as Hr.
    split_and!; [unfold taken; by rewrite Hg | done |].
    intros c. unfold run_exit_code.
    destruct (main (run e a sched)) as [| | | | | | |r]; try done.
    rewrite (Hr r eq_refl). by intros [= <-].
  - intros sched more Hp Hd.
    destruct (no_worker_stuck e a dbs Hs Hok Hne Hj sched more Hp Hd) as [_ H].
    unfold is_done in H. unfold run_exit_code.
    by destruct (main (run e a (sched ++ more))).
Qed.

Lemma X1_witness :
  loop_counter (main (run healthy_env (demo_args 2) twelve_sleeps_sched))
  = Some 60 ∧
  len (progress_lines (log (run healthy_env (demo_args 2) twelve_sleeps_sched)))
  = 1.
Proof.
  split; [reflexivity|].
  exact (proj2 (proj2 (X1_progress_line_every_twelfth_sleep healthy_env
           (demo_args 2) twelve_sleeps_sched 60 eq_refl))).
Defined.

Lemma X3_witness :
  loop_counter (main (run healthy_env (demo_args 2) all_killed_sched)) = Some 0 ∧
  workers (run healthy_env (demo_args 2) all_killed_sched) ≠ [] ∧
  Forall (λ w, is_alive w = false)
    (workers (run healthy_env (demo_args 2) all_killed_sched)) ∧
  pipe (run healthy_env (demo_args 2) all_killed_sched) ≠ [] ∧
  (3 ≤ times AMain [AMain; AWorker 0; AMain; AMain])%nat ∧
  run_exit_code (exec healthy_env (demo_args 2) [AMain; AWorker 0; AMain; AMain]
                   (run healthy_env (demo_args 2) all_killed_sched)) = Some 1.
Proof.
  assert (workers (run healthy_env (demo_args 2) all_killed_sched) ≠ []) as Hne
    by (vm_compute; discriminate).
  assert (Forall (λ w, is_alive w = false)
            (workers (run healthy_env (demo_args 2) all_killed_sched))) as Hall
    by (vm_compute; repeat constructor).
  assert (pipe (run healthy_env (demo_args 2) all_killed_sched) ≠ []) as Hq
    by (vm_compute; discriminate).
  assert (3 ≤ times AMain [AMain; AWorker 0; AMain; AMain])%nat as Hle
    by (vm_compute; lia).
  split_and!; [reflexivity | exact Hne | exact Hall | exact Hq | exact Hle |].
  exact (proj2 (X3_all_workers_gone_ends_run healthy_env (demo_args 2)
           (run healthy_env (demo_args 2) all_killed_sched)
           [AMain; AWorker 0; AMain; AMain] 0 eq_refl Hne Hall Hq Hle)).
Defined.

Lemma X4_witness :
  startup healthy_env (demo_args 0) = inr ["db1"] ∧
  forallb (db_ok healthy_env (demo_args 0)) ["db1"] = true ∧
  all_jobs healthy_env ["db1"] ≠ [] ∧
  jobs (demo_args 0) ≤ 0 ∧
  run_exit_code (run healthy_env (demo_args 0) early_sched) = Some 0 ∧
  pipe (run healthy_env (demo_args 0) fed_sched) ≠ [] ∧
  is_done (run healthy_env (demo_args 0) fed_sched) = false ∧
  run_exit_code (run healthy_env (demo_args 0)
                   (fed_sched ++ replicate 38 AMain)) = None.
Proof.
  assert (all_jobs healthy_env ["db1"] ≠ []) as Hne by (vm_compute; discriminate).
  assert (jobs (demo_args 0) ≤ 0) as Hj by (simpl; lia).
  assert (pipe (run healthy_env (demo_args 0) fed_sched) ≠ []) as Hp
    by (vm_compute; discriminate).
  split_and!; [reflexivity | reflexivity | exact Hne | exact Hj | reflexivity
              | exact Hp | reflexivity |].
  exact (proj2 (X4_zero_workers_return_early_or_never healthy_env (demo_args 0)
           ["db1"] eq_refl eq_refl Hne Hj) fed_sched (replicate 38 AMain)
           Hp eq_refl).
Defined.


(** ** The last line of the log *)

Section Verdict.
Context (e : Env) (a : Args).

Lemma lines_app f l1 l2 : lines f (l1 ++ l2) = lines f l1 ++ lines f l2.
Proof. apply filter_app. Qed.

Lemma lines_elem f l : (∃ r, r ∈ l ∧ fmt r = f) ↔ lines f l ≠ [].
Proof.
  unfold lines. split.
  - intros (r & Hr & Hf) Hnil.
    assert (r ∈ filter (λ r, fmt r = f) l) as Hin by (by apply list_elem_of_filter).
    rewrite Hnil in Hin. by apply elem_of_nil in Hin.
  - intros Hne. destruct (filter (λ r, fmt r = f) l) as [|r l'] eqn:Hl; [done|].
    assert (r ∈ filter (λ r, fmt r = f) l) as Hin by (rewrite Hl; left).
    apply list_elem_of_filter in Hin as [Hf Hr]. by exists r.
Qed.

Lemma verdict_dump j :
  lines done_fmt (dump_table e a j).1.1 = [] ∧
  lines not_alive_fmt (dump_table e a j).1.1 = [].
Proof.
  unfold dump_table, shell_exec_with_output.
  repeat case_bool_decide; split; reflexivity.
Qed.

Lemma verdict_startup :
  lines done_fmt (startup_log e a) = [] ∧
  lines not_alive_fmt (startup_log e a) = [].
Proof.
  unfold startup_log. destruct (negb _); [done|].
  destruct (list_databases e); done.
Qed.

Lemma verdict_cut w n :
  lines done_fmt (cut_log e a w n) = [] ∧
  lines not_alive_fmt (cut_log e a w n) = [].
Proof.
  destruct w as [| |j|c]; simpl; try done.
  destruct (verdict_dump j). split; by apply filter_take_nil.
Qed.

Lemma verdict_ok_step act s : verdict_ok s → verdict_ok (step e a act s).
Proof.
  intros H. destruct act as [|k|k n|]; unfold step.
  - destruct s as [m ws bf q l tr]. unfold verdict_ok, main_step, goto in *.
    simpl in *. destruct H as (H1 & H2).
    pose proof verdict_startup as [Hs1 Hs2].
    destruct m as [|dl n|db dl n|db todo c dl n|i|i|i|r]; simpl in *.
    + destruct (startup e a); simpl.
      * by rewrite !lines_app, H1, H2, Hs1, Hs2.
      * change (info "Args: %s, unknown_args: %s" _ :: _ ++ ?x)
          with (startup_log e a ++ x).
        by rewrite !lines_app, H1, H2, Hs1, Hs2.
    + destruct dl as [|db dl]; simpl.
      * case_bool_decide; simpl; rewrite !lines_app, H1, H2; done.
      * unfold shell_exec_with_output.
        repeat case_bool_decide; simpl; rewrite !lines_app, H1, H2; done.
    + destruct (list_tables e db); simpl; rewrite !lines_app, H1, H2; done.
    + destruct todo; simpl; [|done]. rewrite !lines_app, H1, H2; done.
    + case_bool_decide; simpl; rewrite !lines_app, H1, H2; done.
    + destruct (allWorkersAlive ws); simpl; rewrite !lines_app, H1, H2; done.
    + rewrite !lines_app, H1, H2. by case_bool_decide.
    + done.
  - unfold verdict_ok in *. rewrite worker_step_main.
    assert (lines done_fmt (log (worker_step e a k s)) = lines done_fmt (log s) ∧
            lines not_alive_fmt (log (worker_step e a k s))
            = lines not_alive_fmt (log s)) as [-> ->]; [|done].
    unfold worker_step. destruct (workers s !! k) as [[| |j|c]|]; simpl; try done.
    + rewrite !lines_app. simpl. by rewrite !app_nil_r.
    + by destruct (pipe s).
    + pose proof (verdict_dump j) as [Hj1 Hj2].
      destruct (dump_table e a j) as [[l' w] rc]. simpl in *.
      by rewrite !lines_app, Hj1, Hj2, !app_nil_r.
  - unfold verdict_ok in *. rewrite kill_step_main.
    assert (lines done_fmt (log (kill_step e a k n s)) = lines done_fmt (log s) ∧
            lines not_alive_fmt (log (kill_step e a k n s))
            = lines not_alive_fmt (log s)) as [-> ->]; [|done].
    unfold kill_step. destruct (workers s !! k) as [w|]; [|done].
    destruct (is_alive w); [|done]. simpl.
    destruct (verdict_cut w n) as [Hc1 Hc2].
    by rewrite !lines_app, Hc1, Hc2, !app_nil_r.
  - unfold verdict_ok in *. by rewrite feed_step_main, feed_step_log.
Qed.

Lemma verdict_ok_run sched : verdict_ok (run e a sched).
Proof. apply run_invariant; [apply verdict_ok_step | done]. Qed.

(** The final line is the record the supervisor writes as it ends. *)
Lemma verdict_written s r :
  is_done s = false → main (main_step e a s) = PDone r →
  match r with
  | Returned => log (main_step e a s) = log s ++ [info done_fmt []]
  | Exit _ => log (main_step e a s) = log s ++ [error not_alive_fmt []]
  | Raised _ => True
  end.
Proof.
  destruct s as [m ws bf q l tr]. unfold main_step, goto, is_done. simpl.
  destruct m as [|dl n|db dl n|db todo c dl n|i|i|i|r']; simpl; try done.
  - destruct (startup e a); simpl; [|done]. by intros _ [= <-].
  - destruct dl; simpl.
    + case_bool_decide; simpl; [|done]. by intros _ [= <-].
    + unfold shell_exec_with_output.
      repeat case_bool_decide; simpl; try done; by intros _ [= <-].
  - destruct (list_tables e db); simpl; [|done]. by intros _ [= <-].
  - by destruct todo.
  - case_bool_decide; simpl; [|done]. by intros _ [= <-].
  - destruct (allWorkersAlive ws); simpl; [done|]. by intros _ [= <-].
Qed.

End Verdict.

(** X6: the log holds the line [Done. No errors encountered] exactly when
    the supervisor has returned, and the line [Not all worker processes
    are alive. Exiting] exactly when it has left with [exit(1)]; each is
    written at most once, by the statement with which the supervisor
    ends, at the end of the log as it is then.  (Workers are not joined
    and may add records after it.) *)
Theorem X6_final_line_tells_how_the_run_ended e a sched :
  let s := run e a sched in
  ((∃ r, r ∈ log s ∧ fmt r = done_fmt) ↔ main s = PDone Returned) ∧
  ((∃ r, r ∈ log s ∧ fmt r = not_alive_fmt) ↔ main s = PDone (Exit 1)) ∧
  (length (lines done_fmt (log s)) ≤ 1)%nat ∧
  (length (lines not_alive_fmt (log s)) ≤ 1)%nat ∧
  (is_done s = false → main (step e a AMain s) = PDone Returned →
   log (step e a AMain s) = log s ++ [info done_fmt []]) ∧
  (is_done s = false → main (step e a AMain s) = PDone (Exit 1) →
   log (step e a AMain s) = log s ++ [error not_alive_fmt []]).
Proof.
  intros s. destruct (verdict_ok_run e a sched) as (H1 & H2).
  pose proof (ending_ok_run e a sched) as He. unfold ending_ok in He.
  fold s in H1, H2, He.
  rewrite !lines_elem, H1, H2.
  split_and!.
  - destruct (main s) as [| | | | | | |[|msg|c]]; split; done.
  - destruct (main s) as [| | | | | | |[|msg|c]]; try (split; done).
    destruct He as [-> _]. split; done.
  - destruct (main s) as [| | | | | | |[|msg|c]]; simpl; lia.
  - destruct (main s) as [| | | | | | |[|msg|c]]; simpl; lia.
  - intros Hd Hr. apply (verdict_written e a s _ Hd Hr).
  - intros Hd Hr. apply (verdict_written e a s _ Hd Hr).
Qed.

(** ** Accounting of workers, failures and dumps *)

Section Accounting.
Context (e : Env) (a : Args).

Lemma count_app p ws1 ws2 : count p (ws1 ++ ws2) = (count p ws1 + count p ws2)%nat.
Proof. unfold count. by rewrite filter_app, length_app. Qed.

Lemma count_replicate p n w : p w = false → count p (replicate n w) = 0%nat.
Proof.
  intros Hw. unfold count. induction n as [|n IH]; [done|]. simpl.
  rewrite filter_cons_False; [done|]. by rewrite Hw.
Qed.

Lemma count_cons p w ws :
  count p (w :: ws) = ((if p w then 1 else 0) + count p ws)%nat.
Proof.
  unfold count. rewrite filter_cons. destruct (p w) eqn:Hw.
  - by rewrite decide_True.
  - by rewrite decide_False.
Qed.

Lemma count_insert p ws i w w' :
  ws !! i = Some w →
  (count p (<[i:=w']> ws) + (if p w then 1 else 0)
   = count p ws + (if p w' then 1 else 0))%nat.
Proof.
  revert i. induction ws as [|x ws IH]; intros i Hi; [done|].
  destruct i as [|i]; simpl in *.
  - injection Hi as ->. rewrite !count_cons. lia.
  - rewrite !count_cons. specialize (IH i Hi). lia.
Qed.

Lemma count_le p ws : (count p ws ≤ length ws)%nat.
Proof. unfold count. apply length_filter. Qed.

Lemma count_disjoint p q ws :
  (∀ w, p w = true → q w = false) →
  (count p ws + count q ws ≤ length ws)%nat.
Proof.
  intros Hpq. induction ws as [|w ws IH]; [done|].
  rewrite !count_cons. simpl. specialize (Hpq w).
  destruct (p w), (q w); try lia; by specialize (Hpq eq_refl).
Qed.

(** What the supervisor leaves alone. *)
Lemma main_step_frame s p :
  p WStarting = false →
  gets (trace (main_step e a s)) = gets (trace s) ∧
  dumps (trace (main_step e a s)) = dumps (trace s) ∧
  count p (workers (main_step e a s)) = count p (workers s) ∧
  lines failed_fmt (log (main_step e a s)) = lines failed_fmt (log s) ∧
  ∀ i c, workers (main_step e a s) !! i = Some (WExited c) →
         workers s !! i = Some (WExited c).
Proof.
  intros Hp. destruct s as [m ws bf q l tr]. unfold main_step, goto. simpl.
  destruct m as [|dl n|db dl n|db todo c dl n|i|i|i|r]; simpl.
  - destruct (startup e a); simpl.
    + rewrite app_nil_r, lines_app.
      assert (lines failed_fmt (startup_log e a) = []) as ->; [|by rewrite app_nil_r].
      unfold startup_log. destruct (negb _); [done|]. by destruct (list_databases e).
    + change (info "Args: %s, unknown_args: %s" _ :: _ ++ ?x)
        with (startup_log e a ++ x).
      rewrite !lines_app.
      assert (lines failed_fmt (startup_log e a) = []) as ->.
      { unfold startup_log. destruct (negb _); [done|]. by destruct (list_databases e). }
      unfold launchWorkers. rewrite count_app, count_replicate by done.
      split_and!; [done | done | lia | by rewrite app_nil_r |].
      intros i c Hi. apply lookup_app_Some in Hi as [Hi|[_ Hi]]; [done|].
      apply lookup_replicate in Hi as [Hi _]. done.
  - destruct dl as [|db dl]; simpl.
    + case_bool_decide; simpl; rewrite ?app_nil_r, ?lines_app; simpl;
        by rewrite ?app_nil_r.
    + unfold shell_exec_with_output.
      repeat case_bool_decide; simpl; rewrite gets_app, dumps_app, lines_app; simpl;
        by rewrite ?app_nil_r.
  - destruct (list_tables e db); simpl; rewrite app_nil_r, lines_app; simpl;
      by rewrite app_nil_r.
  - destruct todo; simpl.
    + rewrite app_nil_r, lines_app. simpl. by rewrite app_nil_r.
    + rewrite gets_app, dumps_app. simpl. by rewrite !app_nil_r.
  - case_bool_decide; simpl; rewrite ?app_nil_r, ?lines_app; simpl;
      by rewrite ?app_nil_r.
  - destruct (allWorkersAlive ws); simpl; rewrite ?app_nil_r, ?lines_app; simpl;
      by rewrite ?app_nil_r.
  - rewrite app_nil_r, lines_app. case_bool_decide; simpl; by rewrite app_nil_r.
  - done.
Qed.

(** The two ways a dump ends. *)
Lemma dump_table_cases j :
  ((dump_table e a j).1.2 = WWaiting ∧ dump_hard e a j = false ∧
   lines failed_fmt (dump_table e a j).1.1 = []) ∨
  ((dump_table e a j).1.2 = WExited 1 ∧ dump_hard e a j = true ∧
   length (lines failed_fmt (dump_table e a j).1.1) = 1%nat ∧
   (dump_table e a j).2 ≠ 0).
Proof.
  unfold dump_hard, dump_table, shell_exec_with_output. simpl.
  repeat case_bool_decide; simpl; try (left; done); try (right; done).
Qed.

Lemma filter_take_length {A} (P : A → Prop) `{∀ x, Decision (P x)} n (l : list A) :
  (length (filter P (take n l)) ≤ length (filter P l))%nat.
Proof.
  revert n. induction l as [|x l IH]; intros n; [by destruct n|].
  destruct n as [|n]; simpl; [lia|]. rewrite !filter_cons.
  specialize (IH n). destruct (decide (P x)); simpl; lia.
Qed.

(** A kill leaves at most one failure line of the dump it cuts. *)
Lemma failed_lines_cut w n :
  (length (lines failed_fmt (cut_log e a w n)) ≤ 1)%nat.
Proof.
  destruct w as [| |j|c]; simpl; try lia.
  etrans; [apply filter_take_length|]. fold (lines failed_fmt (dump_table e a j).1.1).
  destruct (dump_table_cases j) as [(_ & _ & Hl)|(_ & _ & Hl & _)]; rewrite Hl;
    simpl; lia.
Qed.

Lemma failures_ok_step act s : failures_ok s → failures_ok (step e a act s).
Proof.
  intros (H1 & H2 & H3). unfold step.
  unfold failures_ok in *. destruct act as [|k|k n|].
  - destruct (main_step_frame s (exited_with 1) eq_refl) as (_ & _ & -> & -> & Hw).
    destruct (main_step_frame s (exited_with (-9)) eq_refl) as (_ & _ & -> & _).
    split_and!; [done..|]. intros i c Hi. by apply (H3 i c), Hw.
  - unfold worker_step. destruct (workers s !! k) as [[| |j|c]|] eqn:Hk; simpl;
      try done.
    + pose proof (count_insert (exited_with 1) _ k _ WWaiting Hk) as Hc.
      pose proof (count_insert (exited_with (-9)) _ k _ WWaiting Hk) as Hc'.
      simpl in Hc, Hc'. rewrite lines_app. simpl. rewrite app_nil_r.
      split_and!; [lia | lia |]. intros i c Hi.
      destruct (decide (i = k)) as [->|Hne].
      * rewrite list_lookup_insert_eq in Hi; [done|]. by eapply lookup_lt_Some.
      * rewrite list_lookup_insert_ne in Hi by done. by apply (H3 i).
    + destruct (pipe s) as [|j q]; [done|]. simpl.
      pose proof (count_insert (exited_with 1) _ k _ (WDumping j) Hk) as Hc.
      pose proof (count_insert (exited_with (-9)) _ k _ (WDumping j) Hk) as Hc'.
      simpl in Hc, Hc'.
      split_and!; [lia | lia |]. intros i c Hi.
      destruct (decide (i = k)) as [->|Hne].
      * rewrite list_lookup_insert_eq in Hi; [done|]. by eapply lookup_lt_Some.
      * rewrite list_lookup_insert_ne in Hi by done. by apply (H3 i).
    + pose proof (dump_table_cases j) as Hj.
      destruct (dump_table e a j) as [[l' w] rc] eqn:Hd. simpl in *.
      pose proof (count_insert (exited_with 1) _ k _ w Hk) as Hc.
      pose proof (count_insert (exited_with (-9)) _ k _ w Hk) as Hc'.
      simpl in Hc, Hc'. rewrite lines_app, length_app.
      destruct Hj as [(-> & Hh & Hl)|(-> & Hh & Hl & Hrc)]; rewrite Hl;
        simpl in *.
      * split_and!; [lia | lia |]. intros i c Hi.
        destruct (decide (i = k)) as [->|Hne].
        -- rewrite list_lookup_insert_eq in Hi; [done|]. by eapply lookup_lt_Some.
        -- rewrite list_lookup_insert_ne in Hi by done. by apply (H3 i).
      * split_and!; [lia | lia |]. intros i c Hi.
        destruct (decide (i = k)) as [->|Hne].
        -- rewrite list_lookup_insert_eq in Hi by (by eapply lookup_lt_Some).
           injection Hi as <-. by left.
        -- rewrite list_lookup_insert_ne in Hi by done. by apply (H3 i).
  - unfold kill_step. destruct (workers s !! k) as [w|] eqn:Hk; [|done].
    destruct (is_alive w) eqn:Hw; [|done]. simpl.
    pose proof (count_insert (exited_with 1) _ k _ (WExited (-9)) Hk) as Hc.
    pose proof (count_insert (exited_with (-9)) _ k _ (WExited (-9)) Hk) as Hc'.
    assert (exited_with 1 w = false) as Hx by (by destruct w).
    assert (exited_with (-9) w = false) as Hx' by (by destruct w).
    rewrite Hx in Hc. rewrite Hx' in Hc'. simpl in Hc, Hc'.
    pose proof (failed_lines_cut w n) as Hcut.
    rewrite lines_app, length_app.
    split_and!; [lia | lia |]. intros i c Hi.
    destruct (decide (i = k)) as [->|Hne].
    + rewrite list_lookup_insert_eq in Hi by (by eapply lookup_lt_Some).
      injection Hi as <-. by right.
    + rewrite list_lookup_insert_ne in Hi by done. by apply (H3 i).
  - unfold feed_step. by destruct (buffer s).
Qed.

Lemma failures_ok_run sched : failures_ok (run e a sched).
Proof.
  apply run_invariant; [apply failures_ok_step|].
  split_and!; [done..|]. intros i c Hi. done.
Qed.

(** Without a kill no worker is gone with the code of a kill. *)
Lemma no_kill_step act s :
  is_kill act = false →
  count (exited_with (-9)) (workers s) = 0%nat →
  count (exited_with (-9)) (workers (step e a act s)) = 0%nat.
Proof.
  intros Hact H. unfold step. destruct act as [|k|k n|]; [| |done|].
  - by destruct (main_step_frame s (exited_with (-9)) eq_refl) as (_ & _ & -> & _).
  - unfold worker_step. destruct (workers s !! k) as [[| |j|c]|] eqn:Hk; simpl;
      try done.
    + pose proof (count_insert (exited_with (-9)) _ k _ WWaiting Hk) as Hc.
      simpl in Hc. lia.
    + destruct (pipe s) as [|j q]; [done|]. simpl.
      pose proof (count_insert (exited_with (-9)) _ k _ (WDumping j) Hk) as Hc.
      simpl in Hc. lia.
    + pose proof (dump_table_state e a j) as Hj.
      destruct (dump_table e a j) as [[l' w] rc] eqn:Hd. simpl in *.
      pose proof (count_insert (exited_with (-9)) _ k _ w Hk) as Hc.
      destruct Hj as [->| ->]; simpl in *; lia.
  - unfold feed_step. by destruct (buffer s).
Qed.

Lemma no_kill_run sched :
  no_kill sched = true → count (exited_with (-9)) (workers (run e a sched)) = 0%nat.
Proof.
  intros Hk. unfold run.
  apply (exec_invariant e a (λ s, count (exited_with (-9)) (workers s) = 0%nat)
           (λ act, is_kill act = false)); [apply no_kill_step | | done].
  by apply no_kill_Forall.
Qed.

Lemma taken_ok_step act s : taken_ok s → taken_ok (step e a act s).
Proof.
  unfold taken_ok, taken, dumped. intros H. unfold step.
  destruct act as [|k|k n|].
  - destruct (main_step_frame s is_dumping eq_refl) as (-> & -> & -> & _).
    destruct (main_step_frame s (exited_with (-9)) eq_refl) as (_ & _ & -> & _).
    done.
  - unfold worker_step. destruct (workers s !! k) as [[| |j|c]|] eqn:Hk; simpl;
      try done.
    + pose proof (count_insert is_dumping _ k _ WWaiting Hk) as Hc.
      pose proof (count_insert (exited_with (-9)) _ k _ WWaiting Hk) as Hc'.
      simpl in Hc, Hc'. lia.
    + destruct (pipe s) as [|j q]; [done|]. simpl.
      pose proof (count_insert is_dumping _ k _ (WDumping j) Hk) as Hc.
      pose proof (count_insert (exited_with (-9)) _ k _ (WDumping j) Hk) as Hc'.
      simpl in Hc, Hc'. rewrite gets_app, dumps_app, !fmap_app, !length_app.
      simpl. lia.
    + pose proof (dump_table_state e a j) as Hj.
      destruct (dump_table e a j) as [[l' w] rc] eqn:Hd. simpl in *.
      pose proof (count_insert is_dumping _ k _ w Hk) as Hc.
      pose proof (count_insert (exited_with (-9)) _ k _ w Hk) as Hc'.
      rewrite gets_app, dumps_app, !fmap_app, !length_app. simpl.
      destruct Hj as [->| ->]; simpl in *; lia.
  - unfold kill_step. destruct (workers s !! k) as [w|] eqn:Hk; [|done].
    destruct (is_alive w) eqn:Hw; [|done]. simpl.
    pose proof (count_insert is_dumping _ k _ (WExited (-9)) Hk) as Hc.
    pose proof (count_insert (exited_with (-9)) _ k _ (WExited (-9)) Hk) as Hc'.
    assert (exited_with (-9) w = false) as Hx by (by destruct w).
    rewrite Hx in Hc'. simpl in Hc, Hc'. destruct (is_dumping w); lia.
  - unfold feed_step. by destruct (buffer s).
Qed.

Lemma taken_ok_run sched : taken_ok (run e a sched).
Proof.
  apply run_invariant; [apply taken_ok_step|]. by vm_compute.
Qed.

End Accounting.

(** X7: a worker leaves with exit code 1 only after it has logged
    [Failed to dump contents of table ...], and every such line belongs to
    a worker that is gone: one that left with code 1, or one that was
    killed between the log call and the [exit(1)].  So the number of these
    lines lies between the number of workers gone with code 1 and the
    number of workers gone, and without a kill the two agree.  A worker
    that is gone left with code 1 or was killed. *)
Theorem X7_failure_lines_and_lost_workers e a sched :
  let s := run e a sched in
  (count (exited_with 1) (workers s) ≤ length (lines failed_fmt (log s)))%nat ∧
  (length (lines failed_fmt (log s))
   ≤ count (exited_with 1) (workers s) + count (exited_with (-9)) (workers s))%nat ∧
  (no_kill sched = true →
   length (lines failed_fmt (log s)) = count (exited_with 1) (workers s)) ∧
  (∀ i c, workers s !! i = Some (WExited c) → c = 1 ∨ c = -9).
Proof.
  intros s. destruct (failures_ok_run e a sched) as (H1 & H2 & H3).
  fold s in H1, H2, H3. split_and!; [done | done | | done].
  intros Hk. pose proof (no_kill_run e a sched Hk) as H0. fold s in H0. lia.
Qed.

(** X8: of the jobs taken off the queue, each one is dumped (the pg_dump
    has ended, well or not), is being dumped, or was lost with a killed
    worker. *)
Theorem X8_taken_jobs_dumped_or_in_flight e a sched :
  let s := run e a sched in
  (length (dumped s) + count is_dumping (workers s) ≤ length (taken s))%nat ∧
  (length (taken s) ≤ length (dumped s) + count is_dumping (workers s)
                     + count (exited_with (-9)) (workers s))%nat.
Proof. intros s. apply taken_ok_run. Qed.

(** ** The pool is never refilled *)

Section Pool.
Context (e : Env) (a : Args).

Lemma dead_idle_step act s i c :
  workers s !! i = Some (WExited c) →
  gets_of i (trace (step e a act s)) = gets_of i (trace s) ∧
  dumps_of i (trace (step e a act s)) = dumps_of i (trace s).
Proof.
  intros Hi. unfold step, gets_of, dumps_of.
  destruct act as [|k|k n|].
  - by destruct (main_step_frame e a s is_dumping eq_refl) as (-> & -> & _).
  - destruct (decide (k = i)) as [->|Hne].
    { unfold worker_step. by rewrite Hi. }
    unfold worker_step. destruct (workers s !! k) as [[| |j|c']|]; simpl; try done.
    + destruct (pipe s) as [|j q]; [done|]. simpl.
      rewrite gets_app, dumps_app, !filter_app. simpl.
      rewrite filter_cons_False by done. by rewrite ?filter_nil, !app_nil_r.
    + destruct (dump_table e a j) as [[l' w] rc]. simpl.
      rewrite gets_app, dumps_app, !filter_app. simpl.
      rewrite filter_cons_False by done. by rewrite ?filter_nil, !app_nil_r.
  - unfold kill_step. destruct (workers s !! k) as [w|]; [|done].
    by destruct (is_alive w).
  - unfold feed_step. by destruct (buffer s).
Qed.

Lemma pool_size_step act s :
  main s ≠ PStart → length (workers (step e a act s)) = length (workers s).
Proof.
  intros Hm. unfold step.
  destruct act as [|k|k n|].
  - destruct s as [m ws bf q l tr]. unfold main_step, goto. simpl in *.
    destruct m as [|dl n|db dl n|db todo c dl n|i|i|i|r]; simpl; try done.
    + destruct dl; simpl; [by case_bool_decide|].
      unfold shell_exec_with_output. by repeat case_bool_decide.
    + by destruct (list_tables e db).
    + by destruct todo.
    + by case_bool_decide.
    + by destruct (allWorkersAlive ws).
  - unfold worker_step. destruct (workers s !! k) as [[| |j|c']|]; simpl;
      rewrite ?length_insert; try done.
    + by destruct (pipe s); simpl; rewrite ?length_insert.
    + destruct (dump_table e a j) as [[l' w] rc]. simpl. by rewrite length_insert.
  - unfold kill_step. destruct (workers s !! k) as [w|]; [|done].
    destruct (is_alive w); simpl; by rewrite ?length_insert.
  - unfold feed_step. by destruct (buffer s).
Qed.

Lemma dead_idle_exec sched s i c :
  workers s !! i = Some (WExited c) →
  workers (exec e a sched s) !! i = Some (WExited c) ∧
  gets_of i (trace (exec e a sched s)) = gets_of i (trace s) ∧
  dumps_of i (trace (exec e a sched s)) = dumps_of i (trace s).
Proof.
  revert s. induction sched as [|act sched IH]; intros s Hi; [done|].
  simpl. destruct (dead_idle_step act s i c Hi) as [Hg Hd].
  destruct (IH (step e a act s)) as (H1 & H2 & H3).
  { by apply dead_stays_dead. }
  by rewrite H2, H3, Hg, Hd.
Qed.

Lemma pool_size_exec sched s :
  main s ≠ PStart → length (workers (exec e a sched s)) = length (workers s).
Proof.
  revert s. induction sched as [|act sched IH]; intros s Hm; [done|].
  simpl. rewrite IH by (by apply not_start_step). by apply pool_size_step.
Qed.

End Pool.

(** X9: a worker that is gone is never restarted or replaced.  From then
    on, under every schedule, its slot still shows the same exit code, it
    takes no further job and runs no further dump; and once the workers are
    launched the size of the pool never changes. *)
Theorem X9_dead_worker_never_replaced e a s sched i c :
  workers s !! i = Some (WExited c) →
  let s' := exec e a sched s in
  workers s' !! i = Some (WExited c) ∧
  gets_of i (trace s') = gets_of i (trace s) ∧
  dumps_of i (trace s') = dumps_of i (trace s) ∧
  (main s ≠ PStart → length (workers s') = length (workers s)).
Proof.
  intros Hi s'. destruct (dead_idle_exec e a sched s i c Hi) as (H1 & H2 & H3).
  split_and!; [done..|]. apply pool_size_exec.
Qed.

Lemma X9_witness :
  workers (run healthy_env (demo_args 2) kill_sched_before) !! 0%nat
  = Some (WExited (-9)) ∧
  workers (exec healthy_env (demo_args 2) kill_sched_after
             (run healthy_env (demo_args 2) kill_sched_before)) !! 0%nat
  = Some (WExited (-9)) ∧
  gets_of 0 (trace (exec healthy_env (demo_args 2) kill_sched_after
                      (run healthy_env (demo_args 2) kill_sched_before)))
  = gets_of 0 (trace (run healthy_env (demo_args 2) kill_sched_before)).
Proof.
  split; [reflexivity|].
  destruct (X9_dead_worker_never_replaced healthy_env (demo_args 2)
              (run healthy_env (demo_args 2) kill_sched_before)
              kill_sched_after 0%nat (-9) eq_refl) as (H1 & H2 & _).
  exact (conj H1 H2).
Defined.

(** ** Quiet mode *)

Section Quiet.
Context (e : Env) (a : Args).


Lemma emitted_verbose l : quiet a = false → emitted a l = l.
Proof.
  intros Hq. unfold emitted, threshold. rewrite Hq.
  induction l as [|r l IH]; [done|].
  rewrite filter_cons_True; [by rewrite IH|]. destruct (lvl r); simpl; lia.
Qed.










End Quiet.



(** ** The schema checks, in order *)

Section Schemas.
Context (e : Env) (a : Args).

Lemma schema_run_names dbs : (schema_run e a dbs).*1 `prefix_of` dbs.
Proof.
  induction dbs as [|db dbs IH]; simpl; [done|].
  apply prefix_cons. destruct (db_ok e a db); [done|]. apply prefix_nil.
Qed.

Lemma schema_run_codes dbs d c :
  (d, c) ∈ schema_run e a dbs → c = (shell e (schema_cmd a d)).1.
Proof.
  induction dbs as [|db dbs IH]; simpl; intros Hin.
  - by apply elem_of_nil in Hin.
  - apply elem_of_cons in Hin as [Heq|Hin]; [by injection Heq as -> ->|].
    destruct (db_ok e a db); [by apply IH|]. by apply elem_of_nil in Hin.
Qed.

Lemma schema_run_stop dbs pre d c post :
  schema_run e a dbs = pre ++ (d, c) :: post → c ≠ 0 → post = [].
Proof.
  revert pre. induction dbs as [|db dbs IH]; simpl; intros pre Heq Hc.
  - by destruct pre.
  - destruct pre as [|x pre]; simpl in Heq.
    + injection Heq as -> <- Hpost.
      unfold db_ok in Hpost. by rewrite schema_ok_false in Hpost.
    + injection Heq as _ Hrest. destruct (db_ok e a db); [by eapply IH|].
      by destruct pre.
Qed.

Lemma schema_run_all dbs :
  forallb (db_ok e a) dbs = true → schema_run e a dbs = map (λ d, (d, 0)) dbs.
Proof.
  induction dbs as [|db dbs IH]; simpl; [done|].
  intros [Hd Hf]%andb_true_iff. rewrite Hd, IH by done.
  apply db_ok_schema in Hd. unfold schema_ok in Hd.
  apply bool_decide_eq_true_1 in Hd. by rewrite Hd.
Qed.

Lemma schemas_ok_step act s : schemas_ok e a s → schemas_ok e a (step e a act s).
Proof.
  unfold schemas_ok. intros H. unfold step. destruct act as [|k|k n|].
  - rewrite <- H. clear H.
    destruct s as [m ws bf q l tr]. unfold main_step, goto. simpl in *.
    destruct m as [|dl n|db dl n|db todo c dl n|i|i|i|r]; simpl.
    + destruct (startup e a); simpl; by rewrite ?schemas_app, ?app_nil_r.
    + destruct dl as [|db dl]; simpl.
      * case_bool_decide; simpl; rewrite schemas_app; simpl; by rewrite !app_nil_r.
      * unfold shell_exec_with_output, db_ok. simpl.
        case_bool_decide as Hz; simpl; rewrite schemas_app, <- app_assoc; simpl.
        -- by rewrite schema_ok_false.
        -- rewrite schema_ok_true; [done|].
           by destruct (decide ((shell e (schema_cmd a db)).1 = 0)).
    + unfold listing_ok.
      destruct (list_tables e db); simpl; rewrite schemas_app; simpl;
        by rewrite !app_nil_r.
    + destruct todo; simpl; rewrite schemas_app; simpl; by rewrite ?app_nil_r.
    + case_bool_decide; simpl; rewrite schemas_app; simpl; by rewrite !app_nil_r.
    + destruct (allWorkersAlive ws); simpl; rewrite schemas_app; simpl;
        by rewrite !app_nil_r.
    + rewrite schemas_app. simpl. by rewrite !app_nil_r.
    + done.
  - rewrite worker_step_main.
    assert (schemas (trace (worker_step e a k s)) = schemas (trace s)) as ->; [|done].
    unfold worker_step. destruct (workers s !! k) as [[| |j|c]|]; simpl; try done.
    + destruct (pipe s); simpl; [done|]. rewrite schemas_app. simpl.
      by rewrite app_nil_r.
    + destruct (dump_table e a j) as [[l' w] rc]. simpl. rewrite schemas_app.
      simpl. by rewrite app_nil_r.
  - rewrite kill_step_main.
    by rewrite kill_step_trace.
  - unfold feed_step. by destruct (buffer s).
Qed.

Lemma schemas_ok_run sched : schemas_ok e a (run e a sched).
Proof. apply run_invariant; [apply schemas_ok_step | done]. Qed.

Lemma schemas_prefix dbs sched :
  startup e a = inr dbs →
  schemas (trace (run e a sched)) `prefix_of` schema_run e a dbs.
Proof.
  intros Hs. pose proof (schemas_ok_run sched) as H. unfold schemas_ok in H.
  simpl in H. rewrite Hs in H. rewrite <- H. by apply prefix_app_r.
Qed.

End Schemas.

(** X11: the schema checks of a run are made in the order of the database
    list, at most one per database, each with the exit code of the
    database's [pg_dump --schema-only] command, and none is made after one
    that failed.  When the supervisor has reached the drain loop every
    database has been checked, with exit code 0. *)
Theorem X11_schema_checks_in_order_until_first_failure e a dbs sched :
  startup e a = inr dbs →
  let s := run e a sched in
  (schemas (trace s)).*1 `prefix_of` dbs ∧
  (∀ d c, (d, c) ∈ schemas (trace s) → c = (shell e (schema_cmd a d)).1) ∧
  (∀ pre d c post, schemas (trace s) = pre ++ (d, c) :: post → c ≠ 0 → post = []) ∧
  (in_drain (main s) → schemas (trace s) = map (λ d, (d, 0)) dbs).
Proof.
  intros Hs s. destruct (schemas_prefix e a dbs sched Hs) as [k Hk]. fold s in Hk.
  split_and!.
  - etrans; [|apply (schema_run_names e a dbs)]. rewrite Hk, fmap_app.
    by apply prefix_app_r.
  - intros d c Hin. apply (schema_run_codes e a dbs). rewrite Hk.
    apply elem_of_app. by left.
  - intros pre d c post Heq Hc.
    assert (post ++ k = []) as Hn.
    { apply (schema_run_stop e a dbs pre d c); [|done].
      by rewrite Hk, Heq, <- app_assoc. }
    by apply app_eq_nil in Hn as [-> _].
  - intros Hin. pose proof (schemas_ok_run e a sched) as H. unfold schemas_ok in H.
    fold s in H. simpl in H. rewrite Hs in H.
    destruct (seq_inv_run e a dbs sched Hs) as [Hinit|[Hinv _]].
    { fold s in Hinit. by rewrite Hinit in Hin. }
    fold s in Hinv.
    assert (schema_todo e a (main s) = []) as Ht.
    { destruct (main s) as [| | | | | | |[]]; done. }
    rewrite Ht, app_nil_r in H. rewrite H. apply schema_run_all.
    inversion Hinv as [dn rest Hd Hf Hm Hp | dn db rest Hd Hf Hs' Hm Hp
                      | dn db rest ts todo Hd Hf Hs' Ht' Hm Hp | p Hp Hf Hne Hm Hj
                      | dn db rest msg Hd Hf Hb Hmsg Hm Hp | Hf He Hm Hp ];
      try done; rewrite <- Hm in Hin; done.
Qed.

Lemma X11_witness :
  startup broken_schema_env (demo_args 1) = inr ["db1"; "db2"] ∧
  schemas (trace (run broken_schema_env (demo_args 1) broken_schema_sched))
  = [("db1", 0); ("db2", 1)] ∧
  (schemas (trace (run broken_schema_env (demo_args 1) broken_schema_sched))).*1
    `prefix_of` ["db1"; "db2"].
Proof.
  split_and!; [reflexivity | reflexivity |].
  exact (proj1 (X11_schema_checks_in_order_until_first_failure broken_schema_env
           (demo_args 1) ["db1"; "db2"] broken_schema_sched eq_refl)).
Defined.

(** ** Why a worker is gone *)

Section Cause.
Context (e : Env) (a : Args).

Lemma dump_hard_spec j :
  dump_hard e a j = true →
  (dump_table e a j).2 = (shell e (table_cmd a j)).1 ∧
  (shell e (table_cmd a j)).1 ≠ 0 ∧
  ¬ occurs missing_table (shell e (table_cmd a j)).2.
Proof.
  intros Hh. unfold dump_hard in Hh. apply bool_decide_eq_true_1 in Hh.
  revert Hh. unfold dump_table, shell_exec_with_output. simpl.
  destruct (bool_decide ((shell e (table_cmd a j)).1 ≠ 0)) eqn:Hrc; simpl;
    [|done].
  destruct (bool_decide (0 ≤ Py.find _ missing_table)) eqn:Hf; simpl; [done|].
  intros _. apply bool_decide_eq_true_1 in Hrc. apply bool_decide_eq_false_1 in Hf.
  split_and!; [done..|]. by rewrite <- missing_table_test.
Qed.

Lemma dumps_of_snoc i tr k j rc :
  dumps_of i (tr ++ [EvDump k j rc])
  = dumps_of i tr ++ (if decide (k = i) then [(k, j, rc)] else []).
Proof.
  unfold dumps_of. rewrite dumps_app, filter_app. simpl.
  rewrite filter_cons. simpl. by destruct (decide (k = i)).
Qed.

Lemma cause_ok_step act s :
  is_kill act = false → cause_ok e a s → cause_ok e a (step e a act s).
Proof.
  intros Hk H. unfold step. destruct act as [|k|k n|]; [| |done|].
  - destruct (main_step_frame e a s is_dumping eq_refl) as (_ & Hd & _ & _ & Hw).
    intros i c Hi. unfold dumps_of. rewrite Hd. by apply H, Hw.
  - unfold worker_step. destruct (workers s !! k) as [[| |j|c']|] eqn:Hwk; simpl;
      try done.
    + intros i c Hi. simpl in Hi. destruct (decide (i = k)) as [->|Hne].
      * rewrite list_lookup_insert_eq in Hi; [done|]. by eapply lookup_lt_Some.
      * rewrite list_lookup_insert_ne in Hi by done. by apply H.
    + destruct (pipe s) as [|j q]; [done|]. intros i c Hi. simpl in *.
      assert (dumps_of i (trace s ++ [EvGet k j]) = dumps_of i (trace s)) as ->.
      { unfold dumps_of. rewrite dumps_app. simpl. by rewrite app_nil_r. }
      destruct (decide (i = k)) as [->|Hne].
      * rewrite list_lookup_insert_eq in Hi; [done|]. by eapply lookup_lt_Some.
      * rewrite list_lookup_insert_ne in Hi by done. by apply H.
    + pose proof (dump_table_cases e a j) as Hj.
      destruct (dump_table e a j) as [[l' w] rc] eqn:Hd. simpl in *.
      intros i c Hi. simpl in *. rewrite dumps_of_snoc.
      destruct (decide (k = i)) as [->|Hne].
      * rewrite list_lookup_insert_eq in Hi by (by eapply lookup_lt_Some).
        destruct Hj as [(-> & _)|(-> & Hh & _)]; [done|].
        injection Hi as <-. split; [done|]. exists j.
        rewrite last_snoc, Hd. done.
      * rewrite list_lookup_insert_ne in Hi by done. rewrite app_nil_r.
        by apply H.
  - unfold feed_step. by destruct (buffer s).
Qed.

Lemma cause_ok_run sched : no_kill sched = true → cause_ok e a (run e a sched).
Proof.
  intros Hk. unfold run.
  apply (exec_invariant e a (cause_ok e a) (λ act, is_kill act = false)).
  - intros act s. apply cause_ok_step.
  - by apply no_kill_Forall.
  - intros i c Hi. done.
Qed.

End Cause.

(** X12: in a run in which no worker is killed from outside, a worker is
    gone only because a dump of its own failed for another reason than a
    missing table: its exit code is 1, and the last dump it ran ended with
    a non-zero exit code and an output without [No matching tables were
    found]. *)
Theorem X12_worker_gone_only_by_hard_failure e a sched i c :
  no_kill sched = true →
  workers (run e a sched) !! i = Some (WExited c) →
  c = 1 ∧
  ∃ j, last (dumps_of i (trace (run e a sched)))
       = Some (i, j, (shell e (table_cmd a j)).1) ∧
       (shell e (table_cmd a j)).1 ≠ 0 ∧
       ¬ occurs missing_table (shell e (table_cmd a j)).2.
Proof.
  intros Hk Hi. destruct (cause_ok_run e a sched Hk i c Hi) as (-> & j & Hl & Hh).
  split; [done|]. exists j.
  destruct (dump_hard_spec e a j Hh) as (Hrc & Hne & Hocc).
  rewrite Hrc in Hl. done.
Qed.

Lemma X12_witness :
  no_kill damaged_sched = true ∧
  workers (run damaged_env (demo_args 1) damaged_sched) !! 0%nat
  = Some (WExited 1) ∧
  1 = 1 ∧
  ∃ j, last (dumps_of 0 (trace (run damaged_env (demo_args 1) damaged_sched)))
       = Some (0%nat, j, (shell damaged_env (table_cmd (demo_args 1) j)).1) ∧
       (shell damaged_env (table_cmd (demo_args 1) j)).1 ≠ 0 ∧
       ¬ occurs missing_table (shell damaged_env (table_cmd (demo_args 1) j)).2.
Proof.
  split; [reflexivity|]. split; [reflexivity|].
  exact (X12_worker_gone_only_by_hard_failure damaged_env (demo_args 1)
           damaged_sched 0%nat 1 eq_refl eq_refl).
Defined.

(** ** The line that opens the drain loop *)

Section Waiting.
Context (e : Env) (a : Args).

Lemma waiting_dump j : lines waiting_fmt (dump_table e a j).1.1 = [].
Proof.
  unfold dump_table, shell_exec_with_output.
  repeat case_bool_decide; reflexivity.
Qed.

Lemma waiting_startup : lines waiting_fmt (startup_log e a) = [].
Proof.
  unfold startup_log. destruct (negb _); [done|].
  destruct (list_databases e); done.
Qed.

Lemma waiting_ok_step act s :
  seq_ok e a s → waiting_ok s → waiting_ok (step e a act s).
Proof.
  intros Hseq H. unfold step.
  unfold waiting_ok in *. destruct act as [|k|k n|].
  - destruct Hseq as [->|Hseq].
    { unfold main_step. simpl. destruct (startup e a); simpl.
      - by rewrite waiting_startup.
      - change (info "Args: %s, unknown_args: %s" _ :: _ ++ ?x)
          with (startup_log e a ++ x).
        by rewrite lines_app, waiting_startup. }
    destruct s as [m ws bf q l tr]. unfold main_step, goto. simpl in *.
    destruct m as [|dl n|db dl n|db todo c dl n|i|i|i|r]; simpl in *.
    + destruct (startup e a); simpl.
      * by rewrite lines_app, H, waiting_startup.
      * change (info "Args: %s, unknown_args: %s" _ :: _ ++ ?x)
          with (startup_log e a ++ x).
        by rewrite !lines_app, H, waiting_startup.
    + destruct dl as [|db dl]; simpl.
      * case_bool_decide as Hz; simpl; rewrite lines_app, H; [done|]. simpl.
        rewrite puts_app, app_nil_r.
        destruct (startup e a) as [msg|dbs]; [by destruct Hseq|].
        destruct Hseq as [Hinv _].
        inversion Hinv as [dn rest Hdn Hf Hm Hp | | | p Hp | | ]; [|done].
        reflexivity.
      * unfold shell_exec_with_output.
        repeat case_bool_decide; simpl; by rewrite lines_app, H.
    + destruct (list_tables e db); simpl; by rewrite lines_app, H.
    + destruct todo; simpl; [|done]. by rewrite lines_app, H.
    + case_bool_decide; simpl; by rewrite lines_app, H, puts_app, !app_nil_r.
    + destruct (allWorkersAlive ws); simpl;
        by rewrite lines_app, H, puts_app, !app_nil_r.
    + rewrite lines_app, H, puts_app. simpl. rewrite !app_nil_r.
      by case_bool_decide.
    + done.
  - rewrite worker_step_main.
    assert (lines waiting_fmt (log (worker_step e a k s))
            = lines waiting_fmt (log s) ∧
            puts (trace (worker_step e a k s)) = puts (trace s)) as [-> ->];
      [|done].
    unfold worker_step. destruct (workers s !! k) as [[| |j|c]|]; simpl; try done.
    + rewrite lines_app. simpl. by rewrite app_nil_r.
    + destruct (pipe s); simpl; [done|]. rewrite puts_app. simpl.
      by rewrite app_nil_r.
    + pose proof (waiting_dump j) as Hj.
      destruct (dump_table e a j) as [[l' w] rc]. simpl in *.
      rewrite lines_app, Hj, puts_app. simpl. by rewrite !app_nil_r.
  - rewrite kill_step_main, kill_step_trace.
    assert (lines waiting_fmt (log (kill_step e a k n s))
            = lines waiting_fmt (log s)) as ->; [|done].
    unfold kill_step. destruct (workers s !! k) as [w|]; [|done].
    destruct (is_alive w); [|done]. simpl. rewrite lines_app.
    assert (lines waiting_fmt (cut_log e a w n) = []) as ->;
      [|by rewrite app_nil_r].
    destruct w as [| |j|c]; simpl; try done.
    apply filter_take_nil, waiting_dump.
  - unfold feed_step. by destruct (buffer s).
Qed.

Lemma waiting_ok_run sched : waiting_ok (run e a sched).
Proof.
  induction sched as [|act sched IH] using rev_ind; [done|].
  rewrite run_snoc. apply waiting_ok_step; [apply seq_ok_run | done].
Qed.

End Waiting.

(** X13: the line [Waiting for %s tables to be pg_dumped...] is in the log
    exactly when the supervisor has reached the drain loop; it is written
    once, and the number it gives is the number of tables listed over all
    databases, which is the number of jobs put on the queue and is not
    zero. *)
Theorem X13_waiting_line_counts_listed_tables e a dbs sched :
  startup e a = inr dbs →
  let s := run e a sched in
  (entered_loop (main s) = true →
   lines waiting_fmt (log s) = [info waiting_fmt [VInt (len (all_jobs e dbs))]] ∧
   len (puts (trace s)) = len (all_jobs e dbs) ∧
   0 < len (all_jobs e dbs)) ∧
  (entered_loop (main s) = false → lines waiting_fmt (log s) = []).
Proof.
  intros Hs s. pose proof (waiting_ok_run e a sched) as H. unfold waiting_ok in H.
  fold s in H. split; intros He; rewrite He in H; [|done].
  destruct (seq_inv_run e a dbs sched Hs) as [Hinit|[Hinv _]].
  { fold s in Hinit. by rewrite Hinit in He. }
  fold s in Hinv.
  assert (puts (trace s) = all_jobs e dbs ∧ all_jobs e dbs ≠ []) as [Hp Hne].
  { inversion Hinv as [dn rest Hd Hf Hm Hp | dn db rest Hd Hf Hs' Hm Hp
                      | dn db rest ts todo Hd Hf Hs' Ht' Hm Hp | p Hp Hf Hne Hm Hj
                      | dn db rest msg Hd Hf Hb Hmsg Hm Hp | Hf Hemp Hm Hp ];
      try done; rewrite <- Hm in He; done. }
  rewrite Hp in H. split_and!; [done | by rewrite Hp |].
  destruct (all_jobs e dbs); [done|]. unfold len. simpl. lia.
Qed.

Lemma X13_witness :
  startup healthy_env (demo_args 2) = inr ["db1"] ∧
  entered_loop (main (run healthy_env (demo_args 2) kill_sched_before)) = true ∧
  lines waiting_fmt (log (run healthy_env (demo_args 2) kill_sched_before))
  = [info waiting_fmt [VInt 2]].
Proof.
  split_and!; [reflexivity | reflexivity |].
  exact (proj1 (proj1 (X13_waiting_line_counts_listed_tables healthy_env
           (demo_args 2) ["db1"] kill_sched_before eq_refl) eq_refl)).
Defined.

(** ** One database only *)

(** X14: with [-d d] for a database [d] of the server, only [d] is
    processed: its schema is the only one checked, at most once, and only
    its tables are put on the queue, in listing order. *)
Theorem X14_single_database_only e a d dbs sched :
  dbname a = Some d → Py.truthy d = true →
  path_exists e (pg_dumpall_path a) = true →
  list_databases e = inr dbs → d ∈ dbs →
  let s := run e a sched in
  startup e a = inr [d] ∧
  puts (trace s) `prefix_of` jobs_of e d ∧
  (schemas (trace s)).*1 `prefix_of` [d] ∧
  (∀ db t, (db, t) ∈ queue s → db = d).
Proof.
  intros Hd Ht Hp Hl Hin s.
  assert (startup e a = inr [d]) as Hs.
  { unfold startup, select_dbs, Py.contains. rewrite Hp, Hl, Hd, Ht. simpl.
    by rewrite bool_decide_eq_true_2. }
  pose proof (puts_listed e a [d] sched Hs) as Hpre. fold s in Hpre.
  unfold all_jobs in Hpre. simpl in Hpre. rewrite app_nil_r in Hpre.
  split_and!; [done | done | |].
  - destruct (schemas_prefix e a [d] sched Hs) as [k Hk]. fold s in Hk.
    etrans; [|apply (schema_run_names e a [d])]. rewrite Hk, fmap_app.
    by apply prefix_app_r.
  - intros db t Hq. pose proof (fifo_ok_run e a sched) as Hf. unfold fifo_ok in Hf.
    fold s in Hf.
    assert ((db, t) ∈ jobs_of e d) as Hj.
    { destruct Hpre as [k ->]. apply elem_of_app. left. rewrite Hf.
      apply elem_of_app. by right. }
    unfold jobs_of in Hj. apply list_elem_of_fmap in Hj as (t' & Heq & _).
    by injection Heq as -> _.
Qed.

Lemma X14_witness :
  dbname db1_args = Some "db1" ∧ Py.truthy "db1" = true ∧
  path_exists broken_schema_env (pg_dumpall_path db1_args) = true ∧
  list_databases broken_schema_env = inr ["db1"; "db2"] ∧
  "db1" ∈ ["db1"; "db2"] ∧
  startup broken_schema_env db1_args = inr ["db1"] ∧
  (schemas (trace (run broken_schema_env db1_args broken_schema_sched))).*1
    `prefix_of` ["db1"].
Proof.
  assert ("db1" ∈ ["db1"; "db2"]) as Hin by compute_done.
  split_and!; [reflexivity | reflexivity | reflexivity | reflexivity | exact Hin | |].
  - exact (proj1 (X14_single_database_only broken_schema_env db1_args "db1"
             ["db1"; "db2"] broken_schema_sched eq_refl eq_refl eq_refl eq_refl Hin)).
  - exact (proj1 (proj2 (proj2 (X14_single_database_only broken_schema_env db1_args
             "db1" ["db1"; "db2"] broken_schema_sched eq_refl eq_refl eq_refl
             eq_refl Hin)))).
Defined.
(** ** Every way the supervisor ends *)

Section Endings.
Context (e : Env) (a : Args).



End Endings.



(** ** The output of a command *)

Section Strip.

Lemma lstrip_split s : ∃ pre, s = pre +:+ Py.lstrip s ∧ all_space pre = true.
Proof.
  induction s as [|c s (pre & IH & Hpre)]; simpl.
  - by exists EmptyString.
  - destruct (Py.isspace c) eqn:Hc.
    + exists (String c pre). split; [|simpl; by rewrite Hc, Hpre].
      change (String c s = String c (pre +:+ Py.lstrip s)). by f_equal.
    + by exists EmptyString.
Qed.

Lemma lstrip_start s :
  Py.lstrip s = EmptyString ∨ starts_nonspace (Py.lstrip s) = true.
Proof.
  induction s as [|c s IH]; simpl; [by left|].
  destruct (Py.isspace c) eqn:Hc; [done|]. right. simpl. by rewrite Hc.
Qed.

Lemma rstrip_split s : ∃ post, s = Py.rstrip s +:+ post ∧ all_space post = true.
Proof.
  induction s as [|c s (post & IH & Hpost)]; simpl.
  - by exists EmptyString.
  - destruct (Py.rstrip s) as [|c' r] eqn:Hr; simpl in *.
    + destruct (Py.isspace c) eqn:Hc.
      * exists (String c s). split; [done|]. simpl. rewrite Hc. simpl.
        change (EmptyString +:+ post) with post in IH. by rewrite IH.
      * exists post. split; [|done].
        change (String c s = String c (EmptyString +:+ post)). by f_equal.
    + exists post. split; [|done].
      change (String c s = String c (String c' r +:+ post)). by f_equal.
Qed.

Lemma rstrip_end s :
  Py.rstrip s = EmptyString ∨ ends_nonspace (Py.rstrip s) = true.
Proof.
  induction s as [|c s IH]; simpl; [by left|].
  destruct (Py.rstrip s) as [|c' r] eqn:Hr.
  - destruct (Py.isspace c) eqn:Hc; [by left|]. right. simpl. by rewrite Hc.
  - right. destruct IH as [|IH]; [done|]. done.
Qed.

Lemma rstrip_keeps_start s :
  starts_nonspace s = true → starts_nonspace (Py.rstrip s) = true.
Proof.
  destruct s as [|c s]; simpl; [done|]. intros Hc.
  destruct (Py.rstrip s); [|done].
  apply negb_true_iff in Hc. rewrite Hc. simpl. by rewrite Hc.
Qed.

Lemma lstrip_id s : starts_nonspace s = true → Py.lstrip s = s.
Proof.
  destruct s as [|c s]; simpl; [done|]. intros Hc.
  apply negb_true_iff in Hc. by rewrite Hc.
Qed.

Lemma rstrip_id s : ends_nonspace s = true → Py.rstrip s = s.
Proof.
  induction s as [|c s IH]; [done|]. simpl. intros Hs.
  destruct s as [|c' s].
  - simpl. apply negb_true_iff in Hs. by rewrite Hs.
  - rewrite IH by done. done.
Qed.

Lemma strip_trimmed s :
  Py.strip s = EmptyString ∨
  (starts_nonspace (Py.strip s) = true ∧ ends_nonspace (Py.strip s) = true).
Proof.
  unfold Py.strip. destruct (lstrip_start s) as [->|Hs]; [by left|].
  apply rstrip_keeps_start in Hs.
  destruct (rstrip_end (Py.lstrip s)) as [Hr|Hr]; [|by right].
  rewrite Hr in Hs. done.
Qed.

End Strip.

(** X16: the output [shell_exec_with_output] returns (and logs on a
    failure) is what the command wrote with the whitespace at both ends
    removed and nothing else changed: it is empty or starts and ends with
    a character that is not whitespace, and stripping it again changes
    nothing. *)
Theorem X16_command_output_is_trimmed e c :
  let out := (shell_exec_with_output e c).1.2 in
  (∃ pre post, (shell e c).2 = pre +:+ out +:+ post ∧
               all_space pre = true ∧ all_space post = true) ∧
  (out = EmptyString ∨
   (starts_nonspace out = true ∧ ends_nonspace out = true)) ∧
  Py.strip out = out.
Proof.
  simpl. split_and!.
  - destruct (lstrip_split (shell e c).2) as (pre & Hpre & Hs).
    destruct (rstrip_split (Py.lstrip (shell e c).2)) as (post & Hpost & Hs').
    exists pre, post. split_and!; [|done..]. unfold Py.strip.
    by rewrite <- Hpost.
  - apply strip_trimmed.
  - destruct (strip_trimmed (shell e c).2) as [->|[Hs He]]; [done|].
    unfold Py.strip at 1. by rewrite (lstrip_id _ Hs), (rstrip_id _ He).
Qed.
(** ** The run ends whatever fails *)

Section Ends.
Context (e : Env) (a : Args).










(** In the drain loop the supervisor touches neither the queue nor the
    pool. *)
Lemma loop_main_step s :
  main_left e a (main s) = 0%nat →
  buffer (main_step e a s) = buffer s ∧ pipe (main_step e a s) = pipe s ∧
  workers (main_step e a s) = workers s.
Proof.
  intros Hz. destruct s as [m ws bf q l tr]. unfold main_step, goto in *.
  simpl in *.
  destruct m as [|dl n|db dl n|db todo c dl n|i|i|i|r]; simpl in *; try done.
  - pose proof (for_left_pos e a dl). lia.
  - destruct (list_tables e db); lia.
  - by case_bool_decide.
  - by destruct (allWorkersAlive ws).
Qed.

















(** *** A bound in turns *)






(** *** Fair schedules *)




End Ends.

(** The turns of the feeder thread cannot be left out of the count: when
    it writes the job to the pipe only after the turns of the worker, three
    turns of the supervisor do not end the run. *)
Lemma feeder_turns_needed :
  let s1 := replicate 6 AMain in
  let s2 := replicate 3 (AWorker 0) in
  let s3 := [AFeed; AMain; AMain; AMain] in
  (main_left damaged_env (demo_args 1) PStart ≤ times AMain s1)%nat ∧
  (2 * length (queue (run damaged_env (demo_args 1) s1)) + 1
   ≤ times (AWorker 0) s2)%nat ∧
  (3 ≤ times AMain s3)%nat ∧
  run_exit_code (run damaged_env (demo_args 1) (s1 ++ s2 ++ s3)) = None.
Proof. vm_compute. split_and!; try lia; done. Qed.



(** ** The numbers of the progress lines *)

Section Countdown.
Context (e : Env) (a : Args).

Lemma progress_vals_app l1 l2 :
  progress_vals (l1 ++ l2) = progress_vals l1 ++ progress_vals l2.
Proof. unfold progress_vals. by rewrite progress_lines_app, omap_app. Qed.

Lemma descending_snoc l x :
  descending l → Forall (λ m, x ≤ m) l → descending (l ++ [x]).
Proof.
  induction l as [|m l IH]; simpl; [done|].
  intros [Hm Hl] Hx. apply Forall_cons in Hx as [Hxm Hx]. split.
  - apply Forall_app. split; [done|]. by apply Forall_singleton.
  - by apply IH.
Qed.

Lemma main_step_progress s :
  progress_lines (log (main_step e a s))
  = progress_lines (log s) ++
    match main s with
    | PSleep i =>
        if bool_decide ((i + 5) `mod` 60 = 0)
        then [info progress_fmt [VInt (len (queue s))]] else []
    | _ => []
    end.
Proof.
  destruct s as [m ws bf q l tr]. unfold main_step, goto. simpl.
  destruct m as [|dl n|db dl n|db todo c dl n|i|i|i|r]; simpl.
  - destruct (startup e a); simpl.
    + by rewrite progress_lines_app, progress_lines_startup.
    + change (info "Args: %s, unknown_args: %s" _ :: _ ++ ?x)
        with (startup_log e a ++ x).
      by rewrite !progress_lines_app, progress_lines_startup.
  - destruct dl as [|db dl]; simpl.
    + case_bool_decide; simpl; by rewrite progress_lines_app.
    + unfold shell_exec_with_output.
      repeat case_bool_decide; simpl; by rewrite progress_lines_app.
  - destruct (list_tables e db); simpl; by rewrite progress_lines_app.
  - destruct todo; simpl; [|by rewrite app_nil_r]. by rewrite progress_lines_app.
  - case_bool_decide; simpl; by rewrite progress_lines_app.
  - destruct (allWorkersAlive ws); simpl; by rewrite progress_lines_app.
  - rewrite progress_lines_app. by case_bool_decide.
  - by rewrite app_nil_r.
Qed.

Lemma worker_step_progress k s :
  progress_lines (log (worker_step e a k s)) = progress_lines (log s).
Proof.
  unfold worker_step. destruct (workers s !! k) as [[| |j|c]|]; simpl; try done.
  - rewrite progress_lines_app. simpl. by rewrite app_nil_r.
  - by destruct (pipe s).
  - pose proof (progress_lines_dump e a j) as Hj.
    destruct (dump_table e a j) as [[l' w] rc]. simpl in *.
    by rewrite progress_lines_app, Hj, app_nil_r.
Qed.

(** When a progress line is written, and what it says. *)
Lemma step_progress act s :
  progress_lines (log (step e a act s))
  = progress_lines (log s) ++
    match act, main s with
    | AMain, PSleep i =>
        if bool_decide ((i + 5) `mod` 60 = 0)
        then [info progress_fmt [VInt (len (queue s))]] else []
    | _, _ => []
    end.
Proof.
  destruct act as [|k|k n|]; simpl.
  - rewrite main_step_progress. by destruct (main s).
  - by rewrite worker_step_progress, app_nil_r.
  - by rewrite progress_lines_kill, app_nil_r.
  - by rewrite feed_step_log, app_nil_r.
Qed.

Lemma entered_loop_main_left s :
  entered_loop (main s) = true → main_left e a (main s) = 0%nat.
Proof. by destruct (main s) as [| | | | | | |[]]. Qed.

Lemma countdown_ok_step act s : countdown_ok s → countdown_ok (step e a act s).
Proof.
  intros (H0 & Hlen & Hq & Hd).
  unfold countdown_ok, progress_vals in *.
  destruct (decide (act = AMain)) as [->|Hne].
  - simpl. rewrite main_step_progress.
    destruct (entered_loop (main s)) eqn:He.
    + destruct (loop_main_step e a s (entered_loop_main_left s He))
        as (Hb' & Hp' & _).
      assert (queue (main_step e a s) = queue s) as ->
        by (unfold queue; by rewrite Hb', Hp').
      assert (entered_loop (main (main_step e a s)) = true) as He'.
      { destruct s as [m ws bf q l tr]. unfold main_step, goto. simpl in *.
        destruct m as [|dl n|db dl n|db todo c dl n|i|i|i|r]; simpl in *; try done.
        - by case_bool_decide.
        - by destruct (allWorkersAlive ws). }
      rewrite He'.
      destruct (main s) as [| | | | | |i|]; rewrite ?app_nil_r; try done.
      case_bool_decide; rewrite ?app_nil_r; [|done].
      rewrite omap_app, !length_app. simpl. split_and!; [done | lia | |].
      * apply Forall_app. split; [done|]. by apply Forall_singleton.
      * by apply descending_snoc.
    + rewrite (H0 eq_refl) in *.
      assert (match main s with
              | PSleep i =>
                  if bool_decide ((i + 5) `mod` 60 = 0)
                  then [info progress_fmt [VInt (len (queue s))]] else []
              | _ => []
              end = []) as -> by (by destruct (main s)).
      simpl. by split_and!.
  - rewrite step_progress, step_not_main by done.
    assert (match act with
            | AMain =>
                match main s with
                | PSleep i =>
                    if bool_decide ((i + 5) `mod` 60 = 0)
                    then [info progress_fmt [VInt (len (queue s))]] else []
                | _ => []
                end
            | _ => []
            end = []) as -> by (by destruct act).
    rewrite app_nil_r. split_and!; [done..| |done].
    eapply Forall_impl; [exact Hq|]. intros n Hn. simpl in Hn.
    destruct (queue_not_main e a act s Hne) as [[pre Hpre] _].
    rewrite Hpre in Hn. unfold len in *. rewrite length_app in Hn. lia.
Qed.

Lemma countdown_ok_run sched : countdown_ok (run e a sched).
Proof. apply run_invariant; [apply countdown_ok_step|]. by split_and!. Qed.

End Countdown.

(** X18: a progress line is written by the supervisor only, by the
    [logging.info] that follows a sleep when the counter has reached a
    multiple of 60, and the number it carries is [queue.qsize()] at that
    moment: the jobs put and not yet taken.  So every progress line
    carries a number, these numbers never go up from one progress line to
    the next, none is below the present size of the queue, and no progress
    line is written before the drain loop. *)
Theorem X18_progress_numbers_never_go_up e a sched :
  let s := run e a sched in
  (∀ act,
     progress_lines (log (step e a act s))
     = progress_lines (log s) ++
       match act, main s with
       | AMain, PSleep i =>
           if bool_decide ((i + 5) `mod` 60 = 0)
           then [info progress_fmt [VInt (len (queue s))]] else []
       | _, _ => []
       end) ∧
  length (progress_vals (log s)) = length (progress_lines (log s)) ∧
  descending (progress_vals (log s)) ∧
  Forall (λ n, len (queue s) ≤ n) (progress_vals (log s)) ∧
  (entered_loop (main s) = false → progress_lines (log s) = []).
Proof.
  intros s. destruct (countdown_ok_run e a sched) as (H0 & Hlen & Hq & Hd).
  split_and!; try done. intros act. apply step_progress.
Qed.

(** ** Runs without a crash *)

Section CrashFree.
Context (e : Env) (a : Args) (dbs : list string).
Context (Hs : startup e a = inr dbs).
Context (Hok : forallb (db_ok e a) dbs = true).
Context (Hne : all_jobs e dbs ≠ []).
Context (Hhard : no_hard_failure e a dbs = true).



End CrashFree.


